(** * StoryFeed: the browser client and the recommendation engine it talks to

    The repository ships the React client ([src/client/src/App.jsx],
    [AuthComponent.jsx]) and the documentation of the REST interface
    ([src/api/test.md]).  The client is embedded here function by function:
    React state is a record, each handler is a function of the state its
    closure captured, an awaited request is a request value paired with the
    continuation that runs when the promise settles, and the component as a
    whole is a labelled transition system whose labels are the requests it
    emits.

    JavaScript numbers that take part in arithmetic (the playback progress,
    scores, percentages) are IEEE 754 binary64 values, modelled by the
    kernel's primitive floats.  Identifiers, counters and the [liked] flag
    only ever hold integers and are modelled by [Z].

    The scoring engine (cosine similarity, the two-tower and hybrid scores,
    the epsilon-greedy bandit) is not part of the sources; it is modelled
    from the design document, over the reals and the rationals. *)

From Stdlib Require Import ZArith QArith Reals Lra Lia Floats.PrimFloat.
From stdpp Require Import gmap strings list sorting pretty.

(** ** JavaScript numbers *)

Module Js.
Local Open Scope float_scope.

(** Settlement of an awaited promise. *)
Inductive outcome (A : Type) : Type :=
| Resolved (a : A)
| Rejected.
Arguments Resolved {A} a.
Arguments Rejected {A}.

(** A value stored in an object literal sent as JSON. *)
Inductive value : Type :=
| Int (n : Z)
| Num (x : float).

Definition two52 : float := 4503599627370496.

(** [Math.floor]: non-finite values and values of magnitude at least 2^52
    (all of them integral) are returned as they are; below that, adding
    and subtracting 2^52 rounds to a neighbouring integer, corrected
    downwards when it lies above the argument. *)
Definition Math_floor (x : float) : float :=
  if is_nan x || is_infinity x || (two52 <=? abs x) then x
  else
    let r := if 0 <=? x then (x + two52) - two52 else (x - two52) + two52 in
    if x <? r then r - 1 else r.

(** [Math.round] (ECMAScript 21.3.2.28): a non-finite or integral argument
    is returned unchanged; an argument in (0, 0.5) gives +0 and one in
    [-0.5, 0) gives -0; otherwise the closest integer, a tie going
    towards +infinity. *)
Definition Math_round (x : float) : float :=
  if is_nan x || is_infinity x || (Math_floor x =? x) then x
  else if (0 <? x) && (x <? 0.5) then 0
  else if (x <? 0) && (-0.5 <=? x) then -0
  else let f := Math_floor x in if x - f <? 0.5 then f else f + 1.

(** The number is finite and has no fractional part. *)
Definition is_integer (x : float) : bool :=
  negb (is_nan x) && negb (is_infinity x) && (Math_floor x =? x).

(** The number lies in the closed interval [0, 100]; false for NaN. *)
Definition in_percent_range (x : float) : bool :=
  (0 <=? x) && (x <=? 100).
End Js.

(** ** The client: [src/client/src/App.jsx] *)

Module App.
Import Js.
Local Open Scope Z_scope.

Definition CURRENT_USER_ID : Z := 1.
Definition API_BASE_URL : string := "http://localhost:8000".

(** The user object stored by [AuthComponent] ([response.data.user]). *)
Record User : Type := { user_id : Z; username : string }.

(** One entry of [response.data.recommendations]. *)
Record Recommendation : Type :=
  { videoId : Z; score : float; reason : string }.

(** The body of a successful [GET /recommend/...] response. *)
Record RecommendResponse : Type :=
  { recommendations : list Recommendation; response_algorithm : string }.

(** [statsResponse.data] of [GET /video/{id}/stats]. *)
Record Stats : Type :=
  { stats_likes : Z; stats_comments : Z; stats_shares : Z; stats_views : Z;
    avg_watch_percent : float; completion_rate : float }.

(** A video object of the feed (lines 69-83 and 90-104). *)
Record Video : Type :=
  { id : Z; title : string; video_score : float; video_reason : string;
    algorithm : string; videoUrl : string; author : string;
    likes : Z; comments : Z; shares : Z; views : Z;
    avgWatchPercent : float; completionRate : float }.

(** A value of the [userInteractions] object. *)
Record Interaction : Type := { liked : Z; watchedPercent : float }.

(** The [useState] cells of the component (lines 19-25). *)
Record AppState : Type :=
  { user : option User;
    videos : list Video;
    currentVideoIndex : Z;
    loading : bool;
    selectedAlgorithm : string;
    userInteractions : gmap Z Interaction;
    videoProgress : float }.

Definition initial : AppState :=
  {| user := None; videos := []; currentVideoIndex := 0; loading := false;
     selectedAlgorithm := "hybrid"; userInteractions := ∅;
     videoProgress := 0%float |}.

(** State setters; a functional update receives the previous value. *)
Definition setUser (u : option User) (s : AppState) : AppState :=
  {| user := u; videos := videos s;
     currentVideoIndex := currentVideoIndex s; loading := loading s;
     selectedAlgorithm := selectedAlgorithm s;
     userInteractions := userInteractions s;
     videoProgress := videoProgress s |}.

Definition setVideos (f : list Video → list Video) (s : AppState) : AppState :=
  {| user := user s; videos := f (videos s);
     currentVideoIndex := currentVideoIndex s; loading := loading s;
     selectedAlgorithm := selectedAlgorithm s;
     userInteractions := userInteractions s;
     videoProgress := videoProgress s |}.

Definition setCurrentVideoIndex (f : Z → Z) (s : AppState) : AppState :=
  {| user := user s; videos := videos s;
     currentVideoIndex := f (currentVideoIndex s); loading := loading s;
     selectedAlgorithm := selectedAlgorithm s;
     userInteractions := userInteractions s;
     videoProgress := videoProgress s |}.

Definition setLoading (b : bool) (s : AppState) : AppState :=
  {| user := user s; videos := videos s;
     currentVideoIndex := currentVideoIndex s; loading := b;
     selectedAlgorithm := selectedAlgorithm s;
     userInteractions := userInteractions s;
     videoProgress := videoProgress s |}.

Definition setSelectedAlgorithm (a : string) (s : AppState) : AppState :=
  {| user := user s; videos := videos s;
     currentVideoIndex := currentVideoIndex s; loading := loading s;
     selectedAlgorithm := a;
     userInteractions := userInteractions s;
     videoProgress := videoProgress s |}.

Definition setUserInteractions
    (f : gmap Z Interaction → gmap Z Interaction) (s : AppState) : AppState :=
  {| user := user s; videos := videos s;
     currentVideoIndex := currentVideoIndex s; loading := loading s;
     selectedAlgorithm := selectedAlgorithm s;
     userInteractions := f (userInteractions s);
     videoProgress := videoProgress s |}.

Definition setVideoProgress (p : float) (s : AppState) : AppState :=
  {| user := user s; videos := videos s;
     currentVideoIndex := currentVideoIndex s; loading := loading s;
     selectedAlgorithm := selectedAlgorithm s;
     userInteractions := userInteractions s;
     videoProgress := p |}.

(** Requests the component hands to axios. *)
Inductive request : Type :=
| GetRecommend (algorithm : string) (userId : Z)
| GetStats (videoId : Z)
| PostInteraction (body : gmap string value).

(** The path each request is sent to (template literals of lines 57, 65
    and the literal of line 123). *)
Definition path (r : request) : string :=
  match r with
  | GetRecommend algorithm userId =>
      "/recommend/" +:+ algorithm +:+ "/" +:+ pretty userId
  | GetStats videoId => "/video/" +:+ pretty videoId +:+ "/stats"
  | PostInteraction _ => "/interaction"
  end.

(** [user?.id || CURRENT_USER_ID]: a missing user or a falsy id (0) gives
    the constant. *)
Definition userId_of (u : option User) : Z :=
  match u with
  | Some u => if decide (user_id u = 0) then CURRENT_USER_ID else user_id u
  | None => CURRENT_USER_ID
  end.

(** *** fetchRecommendations (lines 52-117) *)

(** Up to the first [await]: [setLoading(true)] and the GET request; the
    parameter's default value is "hybrid". *)
Definition fetchRecommendations (u : option User) (algorithm : option string)
    (s : AppState) : AppState * list request :=
  (setLoading true s,
   [GetRecommend (default "hybrid" algorithm) (userId_of u)]).

(** The callback mapped over the recommendations (lines 62-106), given how
    the stats request for this entry settled. *)
Definition videoObject (response : RecommendResponse) (rec : Recommendation)
    (statsResponse : outcome Stats) : Video :=
  match statsResponse with
  | Resolved stats =>
      {| id := videoId rec;
         title := "Story " +:+ pretty (videoId rec);
         video_score := score rec;
         video_reason := reason rec;
         algorithm := response_algorithm response;
         videoUrl := "/videos/" +:+ pretty (videoId rec) +:+ ".mp4";
         author := "StoryBot";
         likes := stats_likes stats;
         comments := stats_comments stats;
         shares := stats_shares stats;
         views := stats_views stats;
         avgWatchPercent := avg_watch_percent stats;
         completionRate := completion_rate stats |}
  | Rejected =>
      {| id := videoId rec;
         title := "Story " +:+ pretty (videoId rec);
         video_score := score rec;
         video_reason := reason rec;
         algorithm := response_algorithm response;
         videoUrl := "/videos/" +:+ pretty (videoId rec) +:+ ".mp4";
         author := "StoryBot";
         likes := 0; comments := 0; shares := 0; views := 0;
         avgWatchPercent := 0%float; completionRate := 0%float |}
  end.

(** [Promise.all(recommendations.map(...))]: [stats i v] is the settlement
    of the stats request issued for the entry at position [i], whose
    videoId is [v]. *)
Definition videoObjects (stats : nat → Z → outcome Stats)
    (response : RecommendResponse) : list Video :=
  imap (λ i rec, videoObject response rec (stats i (videoId rec)))
       (recommendations response).

Definition statsRequests (response : RecommendResponse) : list request :=
  (λ rec, GetStats (videoId rec)) <$> recommendations response.

(** After the response: the new objects are appended to the feed when the
    request resolved, nothing is added when it was rejected, and
    [setLoading(false)] runs in both cases. *)
Definition fetchRecommendations_settled (response : outcome RecommendResponse)
    (stats : nat → Z → outcome Stats) (s : AppState) : AppState * list request :=
  match response with
  | Resolved r =>
      (setLoading false (setVideos (λ prevVideos, prevVideos ++ videoObjects stats r) s),
       statsRequests r)
  | Rejected => (setLoading false s, [])
  end.

(** *** sendInteraction (lines 119-140) *)

Definition interactionBody (userId videoId likedValue : Z)
    (watched : float) : gmap string value :=
  {[ "userId" := Int userId;
     "videoId" := Int videoId;
     "watched_percent" := Num (Math_round watched);
     "liked" := Int likedValue;
     "whenReacted" := Num (Math_round watched) ]}.

(** What runs once the POST has settled: the functional update of
    [userInteractions] on success, nothing in the [catch] branch. *)
Definition interactionSettled (videoId likedValue : Z) (watched : float)
    (result : outcome unit) (prev : gmap Z Interaction) : gmap Z Interaction :=
  match result with
  | Resolved _ =>
      <[videoId := {| liked := likedValue; watchedPercent := watched |}]> prev
  | Rejected => prev
  end.

(** The request, and the continuation awaiting its settlement. *)
Definition sendInteraction (u : option User) (videoId likedValue : Z)
    (watched : float)
    : request * (outcome unit → gmap Z Interaction → gmap Z Interaction) :=
  let userId := userId_of u in
  (PostInteraction (interactionBody userId videoId likedValue watched),
   interactionSettled videoId likedValue watched).

(** *** The timeupdate listener (lines 177-180) *)

Definition updateProgress (currentTime duration : float) : float :=
  ((currentTime / duration) * 100)%float.

(** *** Like and dislike (lines 186-208) *)

(** [videos[currentVideoIndex]]; [undefined] outside the array. *)
Definition currentVideo (s : AppState) : option Video :=
  if currentVideoIndex s <? 0 then None
  else videos s !! Z.to_nat (currentVideoIndex s).

(** [userInteractions[id]?.liked]. *)
Definition recordedLiked (interactions : gmap Z Interaction) (v : Z) : option Z :=
  liked <$> interactions !! v.

Definition handleLike (s : AppState)
    : option (request * (outcome unit → gmap Z Interaction → gmap Z Interaction)) :=
  match currentVideo s with
  | None => None
  | Some video =>
      let isLiked := bool_decide (recordedLiked (userInteractions s) (id video) = Some 1) in
      let newLiked := if isLiked then 0 else 1 in
      Some (sendInteraction (user s) (id video) newLiked (videoProgress s))
  end.

(** The dislike handler also arms a 500 ms timer that calls [nextVideo];
    the machine below records the timer. *)
Definition handleDislike (s : AppState)
    : option (request * (outcome unit → gmap Z Interaction → gmap Z Interaction)) :=
  match currentVideo s with
  | None => None
  | Some video =>
      let isDisliked := bool_decide (recordedLiked (userInteractions s) (id video) = Some (-1)) in
      let newLiked := if isDisliked then 0 else -1 in
      Some (sendInteraction (user s) (id video) newLiked (videoProgress s))
  end.

(** *** Navigation (lines 210-241) *)

(** [nextVideo] as closed over the render state [c], run against the
    current state [s]. *)
Definition nextVideo (c s : AppState) : AppState * list request :=
  if currentVideoIndex c <? Z.of_nat (length (videos c)) - 1
  then (setCurrentVideoIndex (λ prev, prev + 1) s, [])
  else fetchRecommendations (user c) (Some (selectedAlgorithm c)) s.

(** [prevVideo], likewise. *)
Definition prevVideo (c s : AppState) : AppState :=
  if 0 <? currentVideoIndex c
  then setCurrentVideoIndex (λ prev, prev - 1) s
  else s.

(** [refreshFeed]: the feed is emptied and fetched again. *)
Definition refreshFeed (c s : AppState) : AppState * list request :=
  fetchRecommendations (user c) (Some (selectedAlgorithm c))
    (setCurrentVideoIndex (λ _, 0) (setVideos (λ _, []) s)).

(** [handleLogin], called by [AuthComponent] with [response.data.user];
    the mount effect does the same with the user saved in localStorage. *)
Definition handleLogin (userData : User) (s : AppState) : AppState :=
  setUser (Some userData) s.

(** [handleLogout]; the selected algorithm is kept. *)
Definition handleLogout (s : AppState) : AppState :=
  setUserInteractions (λ _, ∅)
    (setCurrentVideoIndex (λ _, 0) (setVideos (λ _, []) (setUser None s))).

(** *** The algorithm selector (lines 257-265) *)

(** The [value] attributes of the [<option>] elements, in document order. *)
Definition algorithmOptions : list string := ["hybrid"; "twoTower"; "bandit"].

(** [onChange]: [e.target.value] is the value of the selected option. *)
Definition onChangeAlgorithm (targetValue : string) (s : AppState) : AppState :=
  setSelectedAlgorithm targetValue s.

(** *** Effects (lines 143-171) *)

(** The feed effect: with a user, the feed is reset and fetched anew. *)
Definition feedEffect (s : AppState) : AppState * list request :=
  match user s with
  | Some _ =>
      fetchRecommendations (user s) (Some (selectedAlgorithm s))
        (setUserInteractions (λ _, ∅)
           (setCurrentVideoIndex (λ _, 0) (setVideos (λ _, []) s)))
  | None => (s, [])
  end.

(** The prefetch effect: at most two videos remain. *)
Definition prefetchEffect (s : AppState) : AppState * list request :=
  let remainingVideos := Z.of_nat (length (videos s)) - currentVideoIndex s in
  if (remainingVideos <=? 2) && (0 <? remainingVideos) && negb (loading s)
     && (0 <? Z.of_nat (length (videos s))) && bool_decide (is_Some (user s))
  then fetchRecommendations (user s) (Some (selectedAlgorithm s)) s
  else (s, []).

(** *** The component as a transition system *)

(** Besides the React state, the running component holds the requests
    that have not settled yet and the timers that have not fired.  A
    timer keeps the render state its callback closed over. *)
Record Machine : Type :=
  { app : AppState;
    pendingPosts : list (outcome unit → gmap Z Interaction → gmap Z Interaction);
    pendingFetches : nat;
    timers : list AppState }.

Definition boot : Machine :=
  {| app := initial; pendingPosts := []; pendingFetches := 0; timers := [] |}.

(** The recommendation requests among the emitted ones. *)
Definition isRecommend (q : request) : bool :=
  match q with GetRecommend _ _ => true | _ => false end.

Definition countRecommend (out : list request) : nat :=
  length (List.filter isRecommend out).

(** A handler ran: the state it left and the fetches it started. *)
Definition withApp (m : Machine) (r : AppState * list request) : Machine :=
  {| app := r.1; pendingPosts := pendingPosts m;
     pendingFetches := (pendingFetches m + countRecommend r.2)%nat;
     timers := timers m |}.

(** One event of the component, labelled with the requests it emits.
    React decides when an effect runs; an effect is allowed whenever its
    own guard lets it do something, which covers every schedule.  In the
    same way a timeupdate is allowed in every state, although the listener
    exists only once the effect of lines 173-184 has attached it: the
    relation has every run of the component and more, which is what a
    property of all runs needs; a particular session is shown to be one of
    the component by its own events. *)
Inductive step : Machine → list request → Machine → Prop :=
| step_login m userData :
    step m [] (withApp m (handleLogin userData (app m), []))
| step_logout m :
    step m [] (withApp m (handleLogout (app m), []))
| step_select m targetValue :
    targetValue ∈ algorithmOptions →
    step m [] (withApp m (onChangeAlgorithm targetValue (app m), []))
| step_feedEffect m :
    step m (feedEffect (app m)).2 (withApp m (feedEffect (app m)))
| step_prefetchEffect m :
    step m (prefetchEffect (app m)).2 (withApp m (prefetchEffect (app m)))
| step_fetched m n response stats :
    pendingFetches m = S n →
    step m (fetchRecommendations_settled response stats (app m)).2
      {| app := (fetchRecommendations_settled response stats (app m)).1;
         pendingPosts := pendingPosts m; pendingFetches := n;
         timers := timers m |}
| step_timeupdate m currentTime duration :
    step m [] (withApp m (setVideoProgress (updateProgress currentTime duration) (app m), []))
| step_like m req k :
    handleLike (app m) = Some (req, k) →
    step m [req]
      {| app := app m; pendingPosts := k :: pendingPosts m;
         pendingFetches := pendingFetches m; timers := timers m |}
| step_dislike m req k :
    handleDislike (app m) = Some (req, k) →
    step m [req]
      {| app := app m; pendingPosts := k :: pendingPosts m;
         pendingFetches := pendingFetches m; timers := app m :: timers m |}
| step_posted m i k result :
    pendingPosts m !! i = Some k →
    step m []
      {| app := setUserInteractions (k result) (app m);
         pendingPosts := delete i (pendingPosts m);
         pendingFetches := pendingFetches m; timers := timers m |}
| step_timer m i c :
    timers m !! i = Some c →
    step m (nextVideo c (app m)).2
      {| app := (nextVideo c (app m)).1; pendingPosts := pendingPosts m;
         pendingFetches := (pendingFetches m + countRecommend (nextVideo c (app m)).2)%nat;
         timers := delete i (timers m) |}
| step_next m :
    step m (nextVideo (app m) (app m)).2 (withApp m (nextVideo (app m) (app m)))
| step_prev m :
    step m [] (withApp m (prevVideo (app m) (app m), []))
| step_refresh m :
    step m (refreshFeed (app m) (app m)).2 (withApp m (refreshFeed (app m) (app m))).

(** Runs of the component with the requests emitted along the way. *)
Inductive run : Machine → list request → Machine → Prop :=
| run_nil m : run m [] m
| run_step m1 out1 m2 out2 m3 :
    run m1 out1 m2 → step m2 out2 m3 → run m1 (out1 ++ out2) m3.

(** *** Predicates used in the statements *)

(** The [liked] field of a body is one of -1, 0, 1. *)
Definition likedInRange (body : gmap string value) : Prop :=
  ∃ l, body !! "liked" = Some (Int l) ∧ (l = -1 ∨ l = 0 ∨ l = 1).

(** The algorithm names of the REST interface. *)
Definition knownAlgorithm (a : string) : Prop :=
  a = "twoTower" ∨ a = "hybrid" ∨ a = "bandit".

(** The state and every armed timer hold one of the three names. *)
Definition algorithmInv (m : Machine) : Prop :=
  knownAlgorithm (selectedAlgorithm (app m)) ∧
  Forall (λ c, knownAlgorithm (selectedAlgorithm c)) (timers m).

(** A press of a button whose request succeeds: the handler runs on the
    rendered state and the continuation of the POST updates it. *)
Definition pressed
    (handler : AppState → option (request * (outcome unit → gmap Z Interaction → gmap Z Interaction)))
    (s : AppState) : option AppState :=
  match handler s with
  | Some (_, k) => Some (setUserInteractions (k (Resolved ())) s)
  | None => None
  end.

(** *** A small session used to exercise the definitions *)

Definition sampleUser : User := {| user_id := 7; username := "demo_user" |}.

Definition sampleResponse : RecommendResponse :=
  {| recommendations :=
       [ {| videoId := 10; score := 0.5%float; reason := "Exploration" |};
         {| videoId := 11; score := 0.25%float; reason := "Exploration" |} ];
     response_algorithm := "Hybrid (Item-based + Content-based)" |}.

(** The stats request of the first entry resolves, the other one fails. *)
Definition sampleStats (i : nat) (v : Z) : outcome Stats :=
  match i with
  | O => Resolved {| stats_likes := 3; stats_comments := 0; stats_shares := 0;
                     stats_views := 12; avg_watch_percent := 80%float;
                     completion_rate := 50%float |}
  | _ => Rejected
  end.

(** The state once [sampleUser] has logged in and the feed has arrived. *)
Definition sampleState : AppState :=
  (fetchRecommendations_settled (Resolved sampleResponse) sampleStats
     (feedEffect (handleLogin sampleUser initial)).1).1.


(** The events of a session in which the metadata of a video has not
    loaded when the user presses like.  The timeupdate listener is attached
    by the effect of lines 173-184, which runs when [currentVideoIndex]
    changes and a [<video>] element is mounted; so the user first moves to
    the second video with Next.  The element then loads the new source, and
    the timeupdate it fires finds [currentTime] 0 and [duration] still
    NaN. *)
Definition unloadedSession : Machine :=
  let m1 := withApp boot (handleLogin sampleUser (app boot), []) in
  let m2 := withApp m1 (feedEffect (app m1)) in
  let m3 := {| app := (fetchRecommendations_settled (Resolved sampleResponse) sampleStats (app m2)).1;
               pendingPosts := pendingPosts m2; pendingFetches := 0;
               timers := timers m2 |} in
  let m4 := withApp m3 (nextVideo (app m3) (app m3)) in
  withApp m4 (setVideoProgress (updateProgress 0 nan) (app m4), []).

End App.

(** ** What the component renders: [src/client/src/App.jsx], lines 248-406 *)

Module View.
Import Js App.
Local Open Scope Z_scope.

(** [currentInteraction] (lines 249-251): the recorded interaction of the
    video on screen, [null] without one. *)
Definition currentInteraction (s : AppState) : option Interaction :=
  match currentVideo s with
  | Some video => userInteractions s !! id video
  | None => None
  end.

(** [currentInteraction?.liked === n], the test behind the "active" class,
    the fill of the icons and the like counter. *)
Definition likedIs (n : Z) (s : AppState) : bool :=
  bool_decide (liked <$> currentInteraction s = Some n).

(** The number next to the heart (lines 336-339); nothing is rendered
    without a current video. *)
Definition displayedLikes (s : AppState) : option Z :=
  match currentVideo s with
  | Some video => Some (likes video + (if likedIs 1 s then 1 else 0))
  | None => None
  end.

(** The "Interaction:" line of the debug panel (lines 396-405). *)
Definition interactionLabel (s : AppState) : option string :=
  match currentInteraction s with
  | Some i =>
      Some (if bool_decide (liked i = 1) then "Liked"
            else if bool_decide (liked i = -1) then "Disliked"
            else "Neutral")
  | None => None
  end.

(** [disabled={currentVideoIndex === 0}] of the Previous button (line 378). *)
Definition prevDisabled (s : AppState) : bool :=
  bool_decide (currentVideoIndex s = 0).

(** The counter between the navigation buttons (lines 383-385). *)
Definition videoCounter (s : AppState) : string :=
  pretty (currentVideoIndex s + 1) +:+ " / " +:+ pretty (Z.of_nat (length (videos s))).

End View.

(** ** Predicates on the states of the client *)

Module AppInv.
Import Js App.
Local Open Scope Z_scope.

(** The index points at a video of the feed. *)
Definition inFeed (s : AppState) : Prop :=
  0 ≤ currentVideoIndex s < Z.of_nat (length (videos s)).

(** A recorded or sent [liked] value. *)
Definition likedValue (l : Z) : Prop := l = -1 ∨ l = 0 ∨ l = 1.

(** Every recorded interaction holds -1, 0 or 1, and so will the entry of
    every POST that has not settled yet. *)
Definition recordedInv (m : Machine) : Prop :=
  (∀ v i, userInteractions (app m) !! v = Some i → likedValue (liked i)) ∧
  Forall (λ k, ∃ v l w, likedValue l ∧ k = interactionSettled v l w)
         (pendingPosts m).

(** With the loading flag set, a recommendation request is in flight. *)
Definition loadingInv (m : Machine) : Prop :=
  loading (app m) = true → (0 < pendingFetches m)%nat.

(** The title, the URL and the author of a feed item follow from its id. *)
Definition derivedFromId (video : Video) : Prop :=
  title video = "Story " +:+ pretty (id video) ∧
  videoUrl video = "/videos/" +:+ pretty (id video) +:+ ".mp4" ∧
  author video = "StoryBot".

(** Every item of the feed is derived from its id. *)
Definition feedInv (m : Machine) : Prop :=
  Forall derivedFromId (videos (app m)).

(** The index is not negative. *)
Definition indexInv (m : Machine) : Prop := 0 ≤ currentVideoIndex (app m).


(** The session of [sampleState] goes on: dislike on the first video, then
    Next; the timer of the dislike has not fired yet. *)
Definition sampleAtLast : AppState := (nextVideo sampleState sampleState).1.

Definition sampleArmed : Machine :=
  {| app := sampleAtLast;
     pendingPosts :=
       [interactionSettled 10 (-1) 0%float];
     pendingFetches := 0;
     timers := [sampleState] |}.

(** The session right after the login, the first request in flight. *)
Definition sampleLoading : Machine :=
  let m1 := withApp boot (handleLogin sampleUser (app boot), []) in
  withApp m1 (feedEffect (app m1)).

(** The session of [sampleState] once a like on the first video has been
    sent and has succeeded. *)
Definition sampleLiked : Machine :=
  {| app := setUserInteractions (interactionSettled 10 1 0%float (Resolved ())) sampleState;
     pendingPosts := []; pendingFetches := 0; timers := [] |}.

(** *** Presses, settlements and timers as events *)

(** A press of like or dislike, the settlement of the POST at position [i]
    of the pending ones (the latest is at 0), the timer at position [i]
    firing. *)
Inductive event : Type :=
| PressLike
| PressDislike
| Settle (i : nat) (result : outcome unit)
| FireTimer (i : nat).

(** The event applied to the running component, as the rules [step_like],
    [step_dislike], [step_posted] and [step_timer] do it; [None] when the
    event cannot happen. *)
Definition occur (e : event) (m : Machine) : option Machine :=
  match e with
  | PressLike =>
      match handleLike (app m) with
      | Some (_, k) =>
          Some {| app := app m; pendingPosts := k :: pendingPosts m;
                  pendingFetches := pendingFetches m; timers := timers m |}
      | None => None
      end
  | PressDislike =>
      match handleDislike (app m) with
      | Some (_, k) =>
          Some {| app := app m; pendingPosts := k :: pendingPosts m;
                  pendingFetches := pendingFetches m;
                  timers := app m :: timers m |}
      | None => None
      end
  | Settle i result =>
      match pendingPosts m !! i with
      | Some k =>
          Some {| app := setUserInteractions (k result) (app m);
                  pendingPosts := delete i (pendingPosts m);
                  pendingFetches := pendingFetches m; timers := timers m |}
      | None => None
      end
  | FireTimer i =>
      match timers m !! i with
      | Some c =>
          Some {| app := (nextVideo c (app m)).1;
                  pendingPosts := pendingPosts m;
                  pendingFetches :=
                    (pendingFetches m + countRecommend (nextVideo c (app m)).2)%nat;
                  timers := delete i (timers m) |}
      | None => None
      end
  end.

(** The events one after the other. *)
Fixpoint play (events : list event) (m : Machine) : option Machine :=
  match events with
  | [] => Some m
  | e :: events =>
      match occur e m with
      | Some m' => play events m'
      | None => None
      end
  end.


End AppInv.

(** ** The sign-in form: [src/client/src/AuthComponent.jsx] *)

Module Auth.
Import Js.

Definition API_BASE_URL : string := "http://localhost:8000".

(** The [useState] cells of the form (lines 9-17).  [formData] is an object
    whose values are the strings typed so far. *)
Record AuthState : Type :=
  { isLogin : bool;
    formData : gmap string string;
    loading : bool;
    error : string;
    showPassword : bool }.

Definition initial : AuthState :=
  {| isLogin := true;
     formData := {[ "username" := ""; "email" := ""; "password" := "" ]};
     loading := false; error := ""; showPassword := false |}.

Definition setIsLogin (b : bool) (s : AuthState) : AuthState :=
  {| isLogin := b; formData := formData s; loading := loading s;
     error := error s; showPassword := showPassword s |}.

Definition setFormData (d : gmap string string) (s : AuthState) : AuthState :=
  {| isLogin := isLogin s; formData := d; loading := loading s;
     error := error s; showPassword := showPassword s |}.

Definition setLoading (b : bool) (s : AuthState) : AuthState :=
  {| isLogin := isLogin s; formData := formData s; loading := b;
     error := error s; showPassword := showPassword s |}.

Definition setError (e : string) (s : AuthState) : AuthState :=
  {| isLogin := isLogin s; formData := formData s; loading := loading s;
     error := e; showPassword := showPassword s |}.

(** The POST the form hands to axios: the URL and the object sent.  A
    property read from a missing key is [undefined], [None] here. *)
Inductive request : Type :=
| Post (url : string) (data : gmap string (option string)).

(** [response.data] of the two endpoints: [success] with the user and
    possibly a token, or no [success] and a message. *)
Inductive authData : Type :=
| Success (user : App.User) (token : option string)
| Failure (message : string).

(** How the awaited POST settled; a rejection may carry
    [error.response.data.detail]. *)
Inductive settlement : Type :=
| Responded (data : authData)
| Failed (detail : option string).

(** What a settlement does besides updating the form: the two
    [localStorage.setItem] calls (the user is stored as
    [JSON.stringify(user)]) and the call of [onLogin]. *)
Inductive effect : Type :=
| StoreUser (user : App.User)
| StoreToken (token : string)
| OnLogin (user : App.User).

(** [handleChange] (lines 47-52): [{...formData, [name]: value}]. *)
Definition handleChange (name value : string) (s : AuthState) : AuthState :=
  setFormData (<[name := value]> (formData s)) s.

(** The link button (line 132): [setIsLogin(!isLogin)]. *)
Definition toggleMode (s : AuthState) : AuthState :=
  setIsLogin (negb (isLogin s)) s.

(** The object [data] of lines 26-28. *)
Definition submitData (s : AuthState) : gmap string (option string) :=
  if isLogin s
  then {[ "username" := formData s !! "username";
          "password" := formData s !! "password" ]}
  else Some <$> formData s.

(** [handleSubmit] up to the [await] (lines 19-30). *)
Definition handleSubmit (s : AuthState) : AuthState * request :=
  let endpoint := if isLogin s then "/auth/login" else "/auth/register" in
  (setError "" (setLoading true s),
   Post (API_BASE_URL +:+ endpoint) (submitData s)).

(** [response.data.token || `user_${user.id}`]: a missing or empty token
    is replaced. *)
Definition tokenOf (user : App.User) (token : option string) : string :=
  match token with
  | Some t => if decide (t = "") then "user_" +:+ pretty (App.user_id user) else t
  | None => "user_" +:+ pretty (App.user_id user)
  end.

(** [error.response?.data?.detail || "An error occurred"]. *)
Definition detailOf (detail : option string) : string :=
  match detail with
  | Some d => if decide (d = "") then "An error occurred" else d
  | None => "An error occurred"
  end.

(** [handleSubmit] after the [await] (lines 32-44); [setLoading(false)] is
    the [finally] block. *)
Definition handleSubmit_settled (r : settlement) (s : AuthState)
    : AuthState * list effect :=
  match r with
  | Responded (Success user token) =>
      (setLoading false s,
       [StoreUser user; StoreToken (tokenOf user token); OnLogin user])
  | Responded (Failure message) => (setLoading false (setError message s), [])
  | Failed detail => (setLoading false (setError (detailOf detail) s), [])
  end.

(** [demoLogin] (lines 54-75): the registration it first posts ... *)
Definition demoRegister : request :=
  Post (API_BASE_URL +:+ "/auth/register")
       {[ "username" := Some "demo_user";
          "email" := Some "demo@example.com";
          "password" := Some "demo123" ]}.

(** ... and what it does once that POST has settled, a rejection being
    swallowed by [.catch(() => {})]: the form is filled and switched to
    sign-in; 100 ms later [requestSubmit] submits the form. *)
Definition demoLogin_settled (registered : outcome unit) (s : AuthState) : AuthState :=
  setIsLogin true
    (setFormData {[ "username" := "demo_user"; "password" := "demo123" ]} s).

(** The form after the user typed a name and a password into [initial]. *)
Definition sampleForm : AuthState :=
  handleChange "password" "secret" (handleChange "username" "ann" initial).

End Auth.

(** ** The scoring engine, from the design document

    The server ([server.py], [two_tower_model.py], [hybrid_model.py],
    [bandit_model.py]) is listed by the repository's documentation but is
    not among the sources.  What the claims need of it is written down
    here from sections 3, 4.2 to 4.5 of the design. *)

Module Similarity.
Local Open Scope R_scope.




(** Modelled from the spec: an interaction as the models read it
    (section 3): the video, the watched percentage and the reaction. *)
Record Interaction : Type :=
  { videoId : Z; watchedPercent : R; liked : Z }.

(** Modelled from the spec: the interaction weight of section 4.3,
    [w = watchedPercent/100 * (1.5 if liked==1 else 0.3 if liked==-1 else 1.0)]. *)
Definition weight (x : Interaction) : R :=
  watchedPercent x / 100 *
  (if decide (liked x = 1%Z) then 1.5
   else if decide (liked x = (-1)%Z) then 0.3 else 1.0).







(** Modelled from the spec: the sum of the weights of the user history
    (section 4.4, "normalized by"). *)
Definition totalWeight (history : list Interaction) : R :=
  foldr (λ x acc, weight x + acc) 0 history.







(** A history whose weights sum to zero: one like at the very start of a
    video. *)
Definition sampleUnwatched : list Interaction :=
  [ {| videoId := 10; watchedPercent := 0; liked := 1 |} ].

End Similarity.

Module Bandit.
Local Open Scope Q_scope.

(** Modelled from the spec: BanditArm (section 3), one per video, with its
    [pullCount] and [totalReward]; [bandit_model.py] is missing. *)
Record BanditArm : Type :=
  { videoId : Z; pullCount : nat; totalReward : Q }.

(** Modelled from the spec: [averageReward = totalReward / max(pullCount,1)]
    (section 3). *)
Definition averageReward (a : BanditArm) : Q :=
  totalReward a / inject_Z (Z.of_nat (Nat.max (pullCount a) 1)).

(** Modelled from the spec: one entry of the result of [chooseCandidates]
    (section 4.5): the video, its score and the reason. *)
Record Candidate : Type :=
  { candidate : Z; score : Q; reason : string }.

(** Modelled from the spec: the randomness one iteration of
    [chooseCandidates] consumes: a number drawn uniformly from [0, 1),
    compared with epsilon, and the index of the random video. *)
Record Draw : Type := { coin : Q; pick : nat }.

(** Modelled from the spec: the ranking of arms (section 4.5), higher
    [averageReward] first, "ties in average reward broken by lower
    videoId". *)
Definition better (a b : BanditArm) : bool :=
  match averageReward a ?= averageReward b with
  | Gt => true
  | Eq => (videoId a <? videoId b)%Z
  | Lt => false
  end.

(** Modelled from the spec: "the unselected arm with highest
    averageReward" (section 4.5), by one pass over the unselected arms. *)
Fixpoint best (a : BanditArm) (rest : list BanditArm) : BanditArm :=
  match rest with
  | [] => a
  | b :: rest => best (if better b a then b else a) rest
  end.

(** Modelled from the spec: selection "without replacement": the chosen
    video leaves the unselected ones. *)
Definition unselect (a : BanditArm) (arms : list BanditArm) : list BanditArm :=
  filter (λ b, videoId b ≠ videoId a) arms.

(** Modelled from the spec: [chooseCandidates(k)] of BanditModel
    (section 4.5): "repeat k times: with probability epsilon select a
    uniformly random video without replacement (reason "Exploration
    (random)", score 0.0); else select the unselected arm with highest
    averageReward (reason "Exploitation (best performing)" for the top
    pick, "Exploitation" for subsequent exploit picks), score = that
    arm's averageReward ... If fewer than k videos exist, returns as many
    as available."  Iteration [i] consumes [draws i]; [exploited] tells
    whether an exploit pick has been made. *)
Fixpoint chooseFrom (epsilon : Q) (draws : nat → Draw) (exploited : bool)
    (i k : nat) (unselected : list BanditArm) : list Candidate :=
  match k, unselected with
  | O, _ => []
  | _, [] => []
  | S k, a0 :: rest =>
      if Qlt_le_dec (coin (draws i)) epsilon then
        let a := nth (pick (draws i) mod length unselected) unselected a0 in
        {| candidate := videoId a; score := 0;
           reason := "Exploration (random)" |}
        :: chooseFrom epsilon draws exploited (S i) k (unselect a unselected)
      else
        let a := best a0 rest in
        {| candidate := videoId a; score := averageReward a;
           reason := if exploited then "Exploitation"
                     else "Exploitation (best performing)" |}
        :: chooseFrom epsilon draws true (S i) k (unselect a unselected)
  end.

(** Modelled from the spec: [chooseCandidates(k)] starts with every arm
    unselected and no exploit pick made. *)
Definition chooseCandidates (epsilon : Q) (draws : nat → Draw) (k : nat)
    (arms : list BanditArm) : list Candidate :=
  chooseFrom epsilon draws false 0 k arms.

(** A draw is a number of [0, 1). *)
Definition fairDraws (draws : nat → Draw) : Prop :=
  ∀ i, 0 <= coin (draws i) ∧ coin (draws i) < 1.

(** Arm [a] ranks above arm [b]: a higher average reward, or the same
    average reward and a lower videoId. *)
Definition outranks (a b : BanditArm) : Prop :=
  averageReward b < averageReward a ∨
  (averageReward a == averageReward b ∧ (videoId a < videoId b)%Z).

(** The entry an arm gets when it is picked for its reward. *)
Definition exploitEntry (a : BanditArm) (c : Candidate) : Prop :=
  candidate c = videoId a ∧ score c = averageReward a.

(** Sample data: the arms of the scenario of section 8, and a third arm
    tied with B. *)
Definition armA : BanditArm := {| videoId := 1; pullCount := 5; totalReward := 4 |}.
Definition armB : BanditArm := {| videoId := 2; pullCount := 2; totalReward := 1 |}.
Definition armC : BanditArm := {| videoId := 3; pullCount := 4; totalReward := 2 |}.

Definition sampleArms : list BanditArm := [armC; armB; armA].

Definition sampleDraws (i : nat) : Draw := {| coin := 1 # 2; pick := i |}.

Definition otherDraws (i : nat) : Draw := {| coin := 0; pick := 2 * i |}.

End Bandit.

(** * Properties of the client *)

Section ClientProofs.
Import Js App.
Local Open Scope Z_scope.

Implicit Types (s c : AppState) (m : Machine) (out : list request).

(** ** The object literal of [sendInteraction] *)


Lemma interactionBody_dom userId videoId l w :
  dom (interactionBody userId videoId l w)
  = ({["userId"; "videoId"; "watched_percent"; "liked"; "whenReacted"]} : gset string).
Proof.
  unfold interactionBody. rewrite !dom_insert_L, dom_singleton_L. set_solver.
Qed.

(** ** What the two handlers send *)

Lemma handleLike_sends s req k :
  handleLike s = Some (req, k) →
  ∃ video, currentVideo s = Some video ∧
    let newLiked :=
      if bool_decide (recordedLiked (userInteractions s) (id video) = Some 1)
      then 0 else 1 in
    req = PostInteraction
            (interactionBody (userId_of (user s)) (id video) newLiked (videoProgress s)) ∧
    k = interactionSettled (id video) newLiked (videoProgress s).
Proof.
  unfold handleLike. destruct (currentVideo s) as [video|]; [|discriminate].
  intros [= <- <-]. by exists video.
Qed.

Lemma handleDislike_sends s req k :
  handleDislike s = Some (req, k) →
  ∃ video, currentVideo s = Some video ∧
    let newLiked :=
      if bool_decide (recordedLiked (userInteractions s) (id video) = Some (-1))
      then 0 else -1 in
    req = PostInteraction
            (interactionBody (userId_of (user s)) (id video) newLiked (videoProgress s)) ∧
    k = interactionSettled (id video) newLiked (videoProgress s).
Proof.
  unfold handleDislike. destruct (currentVideo s) as [video|]; [|discriminate].
  intros [= <- <-]. by exists video.
Qed.

Lemma fetchRecommendations_out u a s q :
  q ∈ (fetchRecommendations u a s).2 →
  q = GetRecommend (default "hybrid" a) (userId_of u).
Proof. simpl. by intros ->%list_elem_of_singleton. Qed.

(** Every request emitted by one event is a stats request, a
    recommendation request for an algorithm some closure captured, or an
    interaction sent by one of the two handlers. *)
Lemma step_out m out m' q :
  step m out m' → q ∈ out →
  (∃ v, q = GetStats v) ∨
  (∃ c u, (c = app m ∨ c ∈ timers m) ∧ q = GetRecommend (selectedAlgorithm c) u) ∨
  (∃ k, handleLike (app m) = Some (q, k) ∨ handleDislike (app m) = Some (q, k)).
Proof.
  destruct 1; simpl; intros Hq;
    try (by apply elem_of_nil in Hq).
  - unfold feedEffect in Hq. destruct (user (app m)); simpl in Hq.
    + apply list_elem_of_singleton in Hq as ->. right; left. eauto.
    + by apply elem_of_nil in Hq.
  - unfold prefetchEffect in Hq.
    destruct (_ && _); simpl in Hq.
    + apply list_elem_of_singleton in Hq as ->. right; left. eauto.
    + by apply elem_of_nil in Hq.
  - destruct response as [r|]; simpl in Hq.
    + unfold statsRequests in Hq. apply list_elem_of_fmap in Hq as (rec & -> & _).
      left. eauto.
    + by apply elem_of_nil in Hq.
  - apply list_elem_of_singleton in Hq as ->. right; right. eauto.
  - apply list_elem_of_singleton in Hq as ->. right; right. eauto.
  - unfold nextVideo in Hq. destruct (_ <? _); simpl in Hq.
    + by apply elem_of_nil in Hq.
    + apply list_elem_of_singleton in Hq as ->. right; left.
      exists c, (userId_of (user c)). split; [right|done].
      by eapply list_elem_of_lookup_2.
  - unfold nextVideo in Hq. destruct (_ <? _); simpl in Hq.
    + by apply elem_of_nil in Hq.
    + apply list_elem_of_singleton in Hq as ->. right; left. eauto.
  - apply list_elem_of_singleton in Hq as ->. right; left. eauto.
Qed.

(** ** The selected algorithm along a run *)

Lemma algorithmOptions_known a : a ∈ algorithmOptions → knownAlgorithm a.
Proof.
  unfold algorithmOptions, knownAlgorithm. rewrite !elem_of_cons, elem_of_nil.
  tauto.
Qed.

Lemma step_algorithmInv m out m' :
  step m out m' → algorithmInv m → algorithmInv m'.
Proof.
  intros Hstep [Hsel Htim].
  destruct Hstep; split; simpl; try done.
  - by apply algorithmOptions_known.
  - unfold feedEffect. by destruct (user (app m)).
  - unfold prefetchEffect. by destruct (_ && _).
  - by destruct response.
  - by constructor.
  - unfold nextVideo. by destruct (_ <? _).
  - by apply Forall_delete.
  - unfold nextVideo. by destruct (_ <? _).
  - unfold prevVideo. by destruct (_ <? _).
Qed.

Lemma run_algorithmInv m out m' :
  run m out m' → algorithmInv m → algorithmInv m'.
Proof. induction 1; eauto using step_algorithmInv. Qed.

Lemma boot_algorithmInv : algorithmInv boot.
Proof. split; [right; by left | constructor]. Qed.

Lemma run_out m out m' q :
  run m out m' → q ∈ out →
  ∃ out0 m1 out1 m2, run m out0 m1 ∧ step m1 out1 m2 ∧ q ∈ out1.
Proof.
  induction 1 as [|m1 out1 m2 out2 m3 Hrun IH Hstep]; intros Hq.
  - by apply elem_of_nil in Hq.
  - apply elem_of_app in Hq as [Hq|Hq]; [by apply IH | eauto 8].
Qed.

(** ** The definitions at work *)

Example Math_round_values :
  Math_round <$> [2.5; -2.5; 49.5; 0.25; 100; nan; infinity]%float
  = [3; -2; 50; 0; 100; nan; infinity]%float.
Proof. reflexivity. Qed.

Example updateProgress_values :
  updateProgress 30 60 = 50%float ∧ updateProgress 60 60 = 100%float ∧
  in_percent_range (Math_round (updateProgress 15 60)) = true.
Proof. repeat split; reflexivity. Qed.

Example sampleState_feed :
  id <$> videos sampleState = [10; 11] ∧
  likes <$> videos sampleState = [3; 0] ∧
  title <$> videos sampleState = ["Story 10"; "Story 11"] ∧
  loading sampleState = false.
Proof. repeat split; reflexivity. Qed.

Example handleLike_sample :
  ∃ k, handleLike sampleState
       = Some (PostInteraction (interactionBody 7 10 1 0%float), k) ∧
       path (PostInteraction (interactionBody 7 10 1 0%float)) = "/interaction".
Proof. eexists. split; reflexivity. Qed.

Example feedEffect_sample :
  (feedEffect (handleLogin sampleUser initial)).2 = [GetRecommend "hybrid" 7] ∧
  path (GetRecommend "hybrid" 7) = "/recommend/hybrid/7".
Proof. split; reflexivity. Qed.

(** ** Main properties of the client *)

(** C1: the [liked] field sent by the like handler is 1, or 0 when the
    recorded state of the current video is already 1; the one sent by the
    dislike handler is -1, or 0 when the recorded state is already -1; and
    along every run of the component every POST /interaction body carries a
    [liked] value among -1, 0 and 1. *)
Theorem like_dislike_liked_field :
  (∀ s req k, handleLike s = Some (req, k) →
     ∃ video body, currentVideo s = Some video ∧ req = PostInteraction body ∧
       body !! "liked" =
         Some (Int (if bool_decide (recordedLiked (userInteractions s) (id video) = Some 1)
                    then 0 else 1))) ∧
  (∀ s req k, handleDislike s = Some (req, k) →
     ∃ video body, currentVideo s = Some video ∧ req = PostInteraction body ∧
       body !! "liked" =
         Some (Int (if bool_decide (recordedLiked (userInteractions s) (id video) = Some (-1))
                    then 0 else -1))) ∧
  (∀ out m body, run boot out m → PostInteraction body ∈ out → likedInRange body).
Proof.
  split; [|split].
  - intros s req k (video & Hv & -> & _)%handleLike_sends.
    eexists video, _. split; [done|]. split; [done|]. reflexivity.
  - intros s req k (video & Hv & -> & _)%handleDislike_sends.
    eexists video, _. split; [done|]. split; [done|]. reflexivity.
  - intros out m body Hrun Hin.
    destruct (run_out _ _ _ _ Hrun Hin) as (out0 & m1 & out1 & m2 & _ & Hstep & Hq).
    destruct (step_out _ _ _ _ Hstep Hq) as [[v [=]]|[(c & u & _ & [=])|[k [Hk|Hk]]]].
    + apply handleLike_sends in Hk as (video & _ & [= ->] & _).
      eexists. split; [reflexivity|]. case_bool_decide; auto.
    + apply handleDislike_sends in Hk as (video & _ & [= ->] & _).
      eexists. split; [reflexivity|]. case_bool_decide; auto.
Qed.

(** C5: [selectedAlgorithm] starts as "hybrid"; along every run it is one of
    twoTower, hybrid, bandit, and so is the algorithm of every
    GET /recommend/{algorithm}/{userId} request emitted, whose path
    interpolates exactly that name; called without an argument,
    [fetchRecommendations] asks for "hybrid". *)
Theorem recommend_requests_known_algorithm :
  selectedAlgorithm initial = "hybrid" ∧
  (∀ out m, run boot out m →
     knownAlgorithm (selectedAlgorithm (app m)) ∧
     ∀ a u, GetRecommend a u ∈ out →
       knownAlgorithm a ∧
       path (GetRecommend a u) = "/recommend/" +:+ a +:+ "/" +:+ pretty u) ∧
  (∀ u s, (fetchRecommendations u None s).2 = [GetRecommend "hybrid" (userId_of u)]).
Proof.
  split; [done|]. split; [|done].
  intros out m Hrun. split.
  - by destruct (run_algorithmInv _ _ _ Hrun boot_algorithmInv).
  - intros a u Hin. split; [|done].
    destruct (run_out _ _ _ _ Hrun Hin) as (out0 & m1 & out1 & m2 & Hrun1 & Hstep & Hq).
    destruct (run_algorithmInv _ _ _ Hrun1 boot_algorithmInv) as [Hsel Htim].
    destruct (step_out _ _ _ _ Hstep Hq)
      as [[v [=]]|[(c & u' & Hc & [= -> ->])|[k [Hk|Hk]]]].
    + destruct Hc as [->|Hc]; [done|].
      by eapply (proj1 (Forall_forall _ _) Htim).
    + by apply handleLike_sends in Hk as (video & _ & [=] & _).
    + by apply handleDislike_sends in Hk as (video & _ & [=] & _).
Qed.


(** C9: [fetchRecommendations] builds one video object per recommendation
    entry, at the same position, with the entry's videoId, score and
    reason; when the stats request of an entry fails the object is still
    there and its likes, comments, shares, views, avgWatchPercent and
    completionRate are 0. *)
Theorem videoObjects_one_per_recommendation
    (stats : nat → Z → outcome Stats) (response : RecommendResponse) :
  length (videoObjects stats response) = length (recommendations response) ∧
  ∀ i rec, recommendations response !! i = Some rec →
    ∃ video, videoObjects stats response !! i = Some video ∧
      id video = videoId rec ∧ video_score video = score rec ∧
      video_reason video = reason rec ∧
      (stats i (videoId rec) = Rejected →
         likes video = 0 ∧ comments video = 0 ∧ shares video = 0 ∧
         views video = 0 ∧ avgWatchPercent video = 0%float ∧
         completionRate video = 0%float).
Proof.
  unfold videoObjects. split; [apply length_imap|].
  intros i rec Hrec. eexists. rewrite list_lookup_imap, Hrec. split; [done|].
  unfold videoObject. destruct (stats i (videoId rec)); simpl; [|done].
  repeat split; discriminate.
Qed.



(** ** The playback progress when the duration is not available *)

Lemma unloadedSession_reachable :
  ∃ out, run boot out unloadedSession.
Proof.
  eexists. unfold unloadedSession.
  eapply run_step; [eapply run_step; [eapply run_step; [eapply run_step;
    [eapply run_step; [apply run_nil|] |] |] |] |].
  - apply (step_login _ sampleUser).
  - apply step_feedEffect.
  - by apply (step_fetched _ 0 (Resolved sampleResponse) sampleStats).
  - apply step_next.
  - apply (step_timeupdate _ 0%float nan).
Qed.

(** C3: with the duration not loaded yet (NaN), or a duration of 0 at
    position 0, [updateProgress] yields NaN; [Math.round] keeps it, it is
    outside [0, 100], and a like pressed in the session where this happened
    sends it as [watched_percent] and [whenReacted]. *)
Theorem updateProgress_unloaded_duration :
  updateProgress 0 nan = nan ∧
  updateProgress 0 0 = nan ∧
  in_percent_range (Math_round (updateProgress 0 nan)) = false ∧
  in_percent_range (Math_round (updateProgress 0 0)) = false ∧
  ∃ out m body, run boot out m ∧ PostInteraction body ∈ out ∧
    body !! "watched_percent" = Some (Num nan) ∧
    body !! "whenReacted" = Some (Num nan).
Proof.
  repeat (split; [reflexivity|]).
  destruct unloadedSession_reachable as [out Hrun].
  eexists _, _, _. split.
  - eapply run_step; [exact Hrun|]. eapply step_like. reflexivity.
  - split.
    + apply elem_of_app. right. apply list_elem_of_singleton. reflexivity.
    + split; reflexivity.
Qed.

(** C4: the body built for a like on video 10 while the progress is the NaN
    of an unloaded video has the five fields, and its [watched_percent] and
    [whenReacted] are NaN, which is not an integer. *)
Theorem interactionBody_unloaded_progress :
  let body := interactionBody 7 10 1 (updateProgress 0 nan) in
  dom body = ({["userId"; "videoId"; "watched_percent"; "liked"; "whenReacted"]} : gset string) ∧
  body !! "watched_percent" = Some (Num nan) ∧
  body !! "whenReacted" = Some (Num nan) ∧
  is_integer nan = false.
Proof.
  simpl. split; [apply interactionBody_dom|]. repeat split; reflexivity.
Qed.

End ClientProofs.

(** * Properties of the bandit *)

Section BanditProofs.
Import Bandit.
Local Open Scope Q_scope.

Implicit Types (a b : BanditArm) (arms : list BanditArm).

Lemma better_outranks a b : better a b = true ↔ outranks a b.
Proof.
  unfold better, outranks.
  destruct (averageReward a ?= averageReward b) eqn:Hc.
  - apply Qeq_alt in Hc. rewrite Z.ltb_lt. split; [by right|].
    intros [Hlt|[_ ?]]; [|done]. rewrite Hc in Hlt. by apply Qlt_irrefl in Hlt.
  - apply Qlt_alt in Hc. split; [done|].
    intros [Hlt|[Heq _]].
    + exfalso. apply (Qlt_irrefl (averageReward a)). by etransitivity.
    + rewrite Heq in Hc. by apply Qlt_irrefl in Hc.
  - apply Qgt_alt in Hc. split; [by left|done].
Qed.

Lemma outranks_total a b :
  videoId a ≠ videoId b → outranks a b ∨ outranks b a.
Proof.
  intros Hne. unfold outranks.
  destruct (Q_dec (averageReward a) (averageReward b)) as [[Hlt|Hgt]|Heq]; auto.
  destruct (Z.lt_total (videoId a) (videoId b)) as [?|[?|?]]; [auto|done|].
  right; right. split; [by symmetry|done].
Qed.

Lemma outranks_trans a b c : outranks a b → outranks b c → outranks a c.
Proof.
  unfold outranks. intros [H1|[E1 L1]] [H2|[E2 L2]].
  - left. by etransitivity.
  - left. by rewrite <- E2.
  - left. by rewrite E1.
  - right. split; [by rewrite E1 | lia].
Qed.

Lemma outranks_irrefl a : ¬ outranks a a.
Proof. intros [H|[_ H]]; [by apply Qlt_irrefl in H | lia]. Qed.

(** ** The best arm of a pass *)

Lemma best_elem a rest : best a rest ∈ a :: rest.
Proof.
  revert a. induction rest as [|b rest IH]; intros a; simpl.
  - by left.
  - specialize (IH (if better b a then b else a)).
    apply elem_of_cons in IH as [->|IH].
    + destruct (better b a); [right; by left | by left].
    + by do 2 right.
Qed.

Lemma best_outranks a rest b :
  NoDup (videoId <$> a :: rest) → b ∈ a :: rest →
  b = best a rest ∨ outranks (best a rest) b.
Proof.
  revert a b. induction rest as [|c rest IH]; intros a b Hnd Hb; simpl.
  - apply list_elem_of_singleton in Hb. by left.
  - rewrite !fmap_cons in Hnd.
    apply NoDup_cons in Hnd as [Ha Hnd]. apply NoDup_cons in Hnd as [Hc Hnd].
    rewrite not_elem_of_cons in Ha. destruct Ha as [Hac Ha].
    set (w := if better c a then c else a).
    assert (Hw : NoDup (videoId <$> w :: rest)).
    { rewrite fmap_cons. apply NoDup_cons. by destruct (better c a). }
    assert (Hloser : ∀ l, (l = a ∨ l = c) → l = w ∨ outranks w l).
    { intros l Hl. unfold w. destruct (better c a) eqn:Hbt.
      - destruct Hl as [->| ->]; [right; by apply better_outranks | by left].
      - destruct Hl as [->| ->]; [by left|]. right.
        destruct (outranks_total a c Hac) as [?|Hca]; [done|].
        apply better_outranks in Hca. congruence. }
    assert (Hwb : b ∈ w :: rest ∨ b = a ∨ b = c).
    { rewrite !elem_of_cons in Hb. rewrite elem_of_cons. tauto. }
    destruct Hwb as [Hwb|Hwb]; [by apply IH|].
    destruct (Hloser b Hwb) as [->|Hout]; [apply IH; [done|by left]|].
    destruct (IH w w Hw) as [<-|Hbw]; [by left|by right|].
    right. by eapply outranks_trans.
Qed.

(** ** Selection without replacement *)

Lemma unselect_elem a b arms :
  b ∈ unselect a arms ↔ videoId b ≠ videoId a ∧ b ∈ arms.
Proof. unfold unselect. by rewrite list_elem_of_filter. Qed.

Lemma unselect_NoDup a arms :
  NoDup (videoId <$> arms) → NoDup (videoId <$> unselect a arms).
Proof.
  intros Hnd. apply (sublist_NoDup _ (videoId <$> arms)); [done|].
  apply fmap_sublist. unfold unselect. apply sublist_filter.
Qed.

Lemma unselect_length a arms :
  NoDup (videoId <$> arms) → a ∈ arms →
  S (length (unselect a arms)) = length arms.
Proof.
  unfold unselect. induction arms as [|b arms IH]; intros Hnd Ha.
  - by apply elem_of_nil in Ha.
  - rewrite fmap_cons in Hnd. apply NoDup_cons in Hnd as [Hb Hnd].
    apply elem_of_cons in Ha as [->|Ha].
    + rewrite filter_cons_False by (intros ?; done). simpl. f_equal.
      clear IH. induction arms as [|c arms IH]; [done|].
      rewrite fmap_cons in Hb, Hnd. apply not_elem_of_cons in Hb as [Hbc Hb].
      apply NoDup_cons in Hnd as [_ Hnd].
      rewrite filter_cons_True by done. simpl. f_equal. by apply IH.
    + rewrite filter_cons_True.
      * simpl. f_equal. by apply IH.
      * intros Heq. apply Hb. rewrite Heq. by apply list_elem_of_fmap_2.
Qed.

Lemma arms_same_video a b arms :
  NoDup (videoId <$> arms) → a ∈ arms → b ∈ arms →
  videoId a = videoId b → a = b.
Proof.
  intros Hnd [i Hi]%list_elem_of_lookup [j Hj]%list_elem_of_lookup Heq.
  assert (i = j) as ->; [|congruence].
  eapply (NoDup_lookup _ i j (videoId a) Hnd).
  - by rewrite list_lookup_fmap, Hi.
  - by rewrite list_lookup_fmap, Hj, Heq.
Qed.

(** ** One iteration at the two extremes of epsilon *)

Lemma chooseFrom_exploit draws e i k a0 rest :
  fairDraws draws →
  chooseFrom 0 draws e i (S k) (a0 :: rest)
  = {| candidate := videoId (best a0 rest);
       score := averageReward (best a0 rest);
       reason := if e then "Exploitation" else "Exploitation (best performing)" |}
    :: chooseFrom 0 draws true (S i) k (unselect (best a0 rest) (a0 :: rest)).
Proof.
  intros Hfair. simpl. destruct (Qlt_le_dec _ _) as [Hlt|_]; [|done].
  destruct (Hfair i) as [Hge _]. by apply Qle_not_lt in Hge.
Qed.

Lemma chooseFrom_explore draws e i k a0 rest :
  fairDraws draws →
  ∃ a, chooseFrom 1 draws e i (S k) (a0 :: rest)
       = {| candidate := videoId a; score := 0; reason := "Exploration (random)" |}
         :: chooseFrom 1 draws e (S i) k (unselect a (a0 :: rest)).
Proof.
  intros Hfair. simpl. destruct (Qlt_le_dec _ _) as [_|Hle]; [by eexists|].
  destruct (Hfair i) as [_ Hlt]. by apply Qle_not_lt in Hle.
Qed.

Lemma chooseFrom_deterministic draws draws' e i i' k arms :
  fairDraws draws → fairDraws draws' →
  chooseFrom 0 draws e i k arms = chooseFrom 0 draws' e i' k arms.
Proof.
  intros Hfair Hfair'. revert e i i' arms.
  induction k as [|k IH]; intros e i i' [|a0 rest]; try done.
  rewrite !chooseFrom_exploit by done. f_equal. apply IH.
Qed.

Lemma chooseFrom_explores draws e i k arms :
  fairDraws draws →
  Forall (λ c, reason c = "Exploration (random)" ∧ score c = 0)
         (chooseFrom 1 draws e i k arms).
Proof.
  intros Hfair. revert e i arms.
  induction k as [|k IH]; intros e i [|a0 rest]; try by constructor.
  destruct (chooseFrom_explore draws e i k a0 rest Hfair) as [a ->].
  constructor; [done|apply IH].
Qed.

Lemma chooseFrom_greedy draws e i k arms :
  fairDraws draws → NoDup (videoId <$> arms) →
  ∃ chosen,
    Forall2 exploitEntry chosen (chooseFrom 0 draws e i k arms) ∧
    length chosen = Nat.min k (length arms) ∧
    (∀ c, c ∈ chosen → c ∈ arms) ∧
    StronglySorted outranks chosen ∧
    ∀ a, a ∈ arms → a ∉ chosen → Forall (λ c, outranks c a) chosen.
Proof.
  intros Hfair. revert e i arms.
  induction k as [|k IH]; intros e i arms Hnd.
  { exists []. repeat split; try constructor. by intros c ?%elem_of_nil. }
  destruct arms as [|a0 rest].
  { exists []. repeat split; try constructor. by intros c ?%elem_of_nil. }
  rewrite chooseFrom_exploit by done.
  set (w := best a0 rest). set (arms := a0 :: rest) in *.
  assert (Hw : w ∈ arms) by apply best_elem.
  destruct (IH true (S i) (unselect w arms) (unselect_NoDup _ _ Hnd))
    as (chosen & Hentries & Hlen & Hsub & Hsorted & Hrest).
  assert (Hbelow : ∀ b, b ∈ arms → b ≠ w → outranks w b).
  { intros b Hb Hne. by destruct (best_outranks a0 rest b Hnd Hb). }
  assert (Hchosen : ∀ c, c ∈ chosen → c ∈ arms ∧ c ≠ w).
  { intros c [Hid Hc]%Hsub%unselect_elem. split; [done|]. by intros ->. }
  exists (w :: chosen). split; [|split; [|split; [|split]]].
  - by constructor.
  - simpl. rewrite Hlen. f_equal.
    pose proof (unselect_length w arms Hnd Hw) as Hl.
    change (length arms) with (S (length rest)) in Hl. lia.
  - intros c [->|Hc]%elem_of_cons; [done|]. by apply Hchosen.
  - constructor; [done|]. apply Forall_forall. intros c Hc.
    destruct (Hchosen c Hc). by apply Hbelow.
  - intros a Ha [Hne Hna]%not_elem_of_cons. constructor; [by apply Hbelow|].
    apply Hrest; [|done]. apply unselect_elem. split; [|done].
    intros Heq. apply Hne. by eapply arms_same_video.
Qed.

(** For every epsilon the picks are made without replacement: the result
    has min(k, number of arms) entries, all of them arms, no video twice. *)
Lemma chooseFrom_without_replacement epsilon draws e i k arms :
  NoDup (videoId <$> arms) →
  length (chooseFrom epsilon draws e i k arms) = Nat.min k (length arms) ∧
  NoDup (candidate <$> chooseFrom epsilon draws e i k arms) ∧
  ∀ v, v ∈ candidate <$> chooseFrom epsilon draws e i k arms → v ∈ videoId <$> arms.
Proof.
  revert e i arms. induction k as [|k IH]; intros e i arms Hnd.
  { repeat split; [constructor|]. by intros v ?%elem_of_nil. }
  destruct arms as [|a0 rest].
  { repeat split; [constructor|]. by intros v ?%elem_of_nil. }
  set (arms := a0 :: rest) in *.
  assert (Hstep : ∃ a e', a ∈ arms ∧ ∃ c, candidate c = videoId a ∧
            chooseFrom epsilon draws e i (S k) arms
            = c :: chooseFrom epsilon draws e' (S i) k (unselect a arms)).
  { change (chooseFrom epsilon draws e i (S k) arms) with
      (if Qlt_le_dec (coin (draws i)) epsilon then
         let a := nth (pick (draws i) mod length arms) arms a0 in
         {| candidate := videoId a; score := 0; reason := "Exploration (random)" |}
         :: chooseFrom epsilon draws e (S i) k (unselect a arms)
       else
         let a := best a0 rest in
         {| candidate := videoId a; score := averageReward a;
            reason := if e then "Exploitation" else "Exploitation (best performing)" |}
         :: chooseFrom epsilon draws true (S i) k (unselect a arms)).
    destruct (Qlt_le_dec _ _).
    - eexists _, _. split; [|eexists; split; [|reflexivity]; reflexivity].
      apply list_elem_of_In, nth_In. by apply Nat.mod_upper_bound.
    - eexists _, _. split; [|eexists; split; [|reflexivity]; reflexivity].
      apply best_elem. }
  destruct Hstep as (a & e' & Ha & c & Hc & ->).
  destruct (IH e' (S i) (unselect a arms) (unselect_NoDup _ _ Hnd))
    as (Hlen & Hdistinct & Hsub).
  pose proof (unselect_length a arms Hnd Ha) as Hl.
  split; [|split].
  - simpl. rewrite Hlen. change (length arms) with (S (length rest)) in Hl. lia.
  - rewrite fmap_cons. apply NoDup_cons. split; [|done].
    intros Hin%Hsub. apply list_elem_of_fmap in Hin as (b & Hb & [Hne _]%unselect_elem).
    congruence.
  - intros v [->|Hv]%elem_of_cons.
    + rewrite Hc. by apply list_elem_of_fmap_2.
    + apply Hsub in Hv. apply list_elem_of_fmap in Hv as (b & -> & [_ Hb]%unselect_elem).
      by apply list_elem_of_fmap_2.
Qed.

(** C7: with epsilon = 0 the result of [chooseCandidates] does not depend on
    the random draws, and it lists, with their average rewards as scores,
    min(k, number of arms) arms in rank order (average reward descending,
    lower videoId first among equal rewards), every arm left out ranking
    below every arm listed; with epsilon = 1 every entry is an exploration
    pick. *)
Theorem chooseCandidates_epsilon_extremes
    (draws draws' : nat → Draw) (k : nat) (arms : list BanditArm)
    (Hfair : fairDraws draws) (Hfair' : fairDraws draws')
    (Hnd : NoDup (videoId <$> arms)) :
  chooseCandidates 0 draws k arms = chooseCandidates 0 draws' k arms ∧
  (∃ chosen,
     Forall2 exploitEntry chosen (chooseCandidates 0 draws k arms) ∧
     length chosen = Nat.min k (length arms) ∧
     (∀ c, c ∈ chosen → c ∈ arms) ∧
     StronglySorted outranks chosen ∧
     ∀ a, a ∈ arms → a ∉ chosen → Forall (λ c, outranks c a) chosen) ∧
  Forall (λ c, reason c = "Exploration (random)" ∧ score c = 0)
         (chooseCandidates 1 draws k arms).
Proof.
  unfold chooseCandidates. split; [|split].
  - by apply chooseFrom_deterministic.
  - by apply chooseFrom_greedy.
  - by apply chooseFrom_explores.
Qed.

Lemma sampleDraws_fair : fairDraws sampleDraws ∧ fairDraws otherDraws.
Proof. split; intros i; split; reflexivity || discriminate. Defined.

Lemma chooseCandidates_epsilon_extremes_witness :
  chooseCandidates 0 sampleDraws 2 sampleArms
  = chooseCandidates 0 otherDraws 2 sampleArms ∧
  (∃ chosen,
     Forall2 exploitEntry chosen (chooseCandidates 0 sampleDraws 2 sampleArms) ∧
     length chosen = Nat.min 2 (length sampleArms) ∧
     (∀ c, c ∈ chosen → c ∈ sampleArms) ∧
     StronglySorted outranks chosen ∧
     ∀ a, a ∈ sampleArms → a ∉ chosen → Forall (λ c, outranks c a) chosen) ∧
  Forall (λ c, reason c = "Exploration (random)" ∧ score c = 0)
         (chooseCandidates 1 sampleDraws 2 sampleArms).
Proof.
  apply (chooseCandidates_epsilon_extremes sampleDraws otherDraws 2 sampleArms).
  - apply sampleDraws_fair.
  - apply sampleDraws_fair.
  - apply (bool_decide_unpack _). reflexivity.
Defined.

(** The scenario of section 8: arms A (0.8) and B (0.5), epsilon = 0,
    [chooseCandidates(2)] gives A then B; among B and C, tied at 0.5, the
    lower videoId comes first. *)
Example chooseCandidates_scenario :
  candidate <$> chooseCandidates 0 sampleDraws 2 [armB; armA] = [1; 2]%Z ∧
  candidate <$> chooseCandidates 0 sampleDraws 5 sampleArms = [1; 2; 3]%Z ∧
  reason <$> chooseCandidates 0 sampleDraws 2 [armB; armA]
  = ["Exploitation (best performing)"; "Exploitation"].
Proof. repeat split; reflexivity. Qed.

End BanditProofs.

(** * Properties of the similarity scores *)

Section SimilarityProofs.
Import Similarity.
Local Open Scope R_scope.

Implicit Types (a b : list R) (x : Interaction).











(** ** Embeddings stay non-negative *)






(** ** The hybrid score is a weighted mean of similarities *)








Lemma sampleUnwatched_weight : totalWeight sampleUnwatched = 0.
Proof. unfold totalWeight, weight. simpl. lra. Qed.


End SimilarityProofs.

(** * Further properties of the client *)

Section FeedProofs.
Import Js App View AppInv.
Local Open Scope Z_scope.

Implicit Types (s c : AppState) (m : Machine).

(** ** Settled fetches *)

(** X1: when a recommendations request settles, the loading flag is
    cleared, the new video objects (none after a rejection) are appended
    behind the feed, the index and the recorded interactions are kept, and
    a video that was on screen stays on screen. *)
Theorem fetch_settled_keeps_current
    (response : outcome RecommendResponse) (stats : nat → Z → outcome Stats) s :
  let s' := (fetchRecommendations_settled response stats s).1 in
  loading s' = false ∧
  videos s' = videos s ++ match response with
                          | Resolved r => videoObjects stats r
                          | Rejected => []
                          end ∧
  currentVideoIndex s' = currentVideoIndex s ∧
  userInteractions s' = userInteractions s ∧
  ∀ video, currentVideo s = Some video → currentVideo s' = Some video.
Proof.
  destruct response as [r|]; simpl; repeat split; try done.
  - intros video. unfold currentVideo. simpl.
    destruct (currentVideoIndex s <? 0); [done|]. apply lookup_app_l_Some.
  - by rewrite app_nil_r.
Qed.

(** ** Navigation *)

(** X2: with the index on a video of the feed, Next and Previous leave the
    feed as it is and keep the index on one of its videos; Next moves one
    video forward without a request, except on the last video, where the
    index stays and one recommendation request for the selected algorithm
    is sent instead. *)
Theorem navigation_stays_in_feed s (Hin : inFeed s) :
  inFeed (nextVideo s s).1 ∧ inFeed (prevVideo s s) ∧
  videos (nextVideo s s).1 = videos s ∧ videos (prevVideo s s) = videos s ∧
  (currentVideoIndex s < Z.of_nat (length (videos s)) - 1 →
     currentVideoIndex (nextVideo s s).1 = currentVideoIndex s + 1 ∧
     (nextVideo s s).2 = []) ∧
  (currentVideoIndex s = Z.of_nat (length (videos s)) - 1 →
     currentVideoIndex (nextVideo s s).1 = currentVideoIndex s ∧
     (nextVideo s s).2 = [GetRecommend (selectedAlgorithm s) (userId_of (user s))]).
Proof.
  unfold inFeed, nextVideo, prevVideo in *.
  destruct (Z.ltb_spec (currentVideoIndex s) (Z.of_nat (length (videos s)) - 1));
    destruct (Z.ltb_spec 0 (currentVideoIndex s)); simpl;
    repeat split; try done; lia.
Qed.

Lemma navigation_stays_in_feed_witness :
  inFeed (nextVideo sampleState sampleState).1 ∧ inFeed (prevVideo sampleState sampleState) ∧
  videos (nextVideo sampleState sampleState).1 = videos sampleState ∧
  videos (prevVideo sampleState sampleState) = videos sampleState.
Proof.
  destruct (navigation_stays_in_feed sampleState) as (H1 & H2 & H3 & H4 & _).
  - split; vm_compute; [discriminate | reflexivity].
  - exact (conj H1 (conj H2 (conj H3 H4))).
Defined.

(** X3: with the index on a video of the feed, Previous undoes Next
    whenever Next moved, and Next undoes Previous whenever Previous moved,
    without a request. *)
Theorem next_prev_round_trip s (Hin : inFeed s) :
  (currentVideoIndex s < Z.of_nat (length (videos s)) - 1 →
     prevVideo (nextVideo s s).1 (nextVideo s s).1 = s) ∧
  (0 < currentVideoIndex s →
     nextVideo (prevVideo s s) (prevVideo s s) = (s, [])).
Proof.
  unfold inFeed, nextVideo, prevVideo in *. destruct s as [u vs i ld a ui p].
  simpl in *. split; intros Hlt.
  - destruct (Z.ltb_spec i (Z.of_nat (length vs) - 1)); [|lia]. simpl.
    destruct (Z.ltb_spec 0 (i + 1)); [|lia].
    unfold setCurrentVideoIndex. simpl. f_equal. lia.
  - destruct (Z.ltb_spec 0 i); [|lia]. simpl.
    destruct (Z.ltb_spec (i - 1) (Z.of_nat (length vs) - 1)); [|lia].
    unfold setCurrentVideoIndex. simpl. do 2 f_equal. lia.
Qed.

Lemma next_prev_round_trip_witness :
  prevVideo (nextVideo sampleState sampleState).1 (nextVideo sampleState sampleState).1
  = sampleState ∧
  nextVideo (prevVideo sampleAtLast sampleAtLast) (prevVideo sampleAtLast sampleAtLast)
  = (sampleAtLast, []).
Proof.
  split.
  - apply (next_prev_round_trip sampleState); vm_compute; [split; [discriminate|reflexivity] | reflexivity].
  - apply (next_prev_round_trip sampleAtLast); vm_compute; [split; [discriminate|reflexivity] | reflexivity].
Defined.

(** ** The delayed [nextVideo] of a dislike *)

Lemma sampleArmed_reachable : ∃ out, run boot out sampleArmed.
Proof.
  eexists.
  eapply run_step; [eapply run_step; [eapply run_step; [eapply run_step;
    [eapply run_step; [apply run_nil|] |] |] |] |].
  - apply (step_login _ sampleUser).
  - apply step_feedEffect.
  - by apply (step_fetched _ 0 (Resolved sampleResponse) sampleStats).
  - eapply step_dislike. reflexivity.
  - apply step_next.
Qed.

(** X4: the timer of a dislike runs the [nextVideo] of the render in which
    the button was pressed.  When that render was not on its last video,
    the callback moves the index one forward whatever the state has become:
    if the last video of the feed is on screen by then, the index leaves
    the feed, no request is sent and no current video is left, although the
    feed is unchanged. *)
Theorem delayed_nextVideo_overshoots c s
    (Hcaptured : currentVideoIndex c < Z.of_nat (length (videos c)) - 1)
    (Hlast : currentVideoIndex s = Z.of_nat (length (videos s)) - 1) :
  (nextVideo c s).2 = [] ∧
  videos (nextVideo c s).1 = videos s ∧
  currentVideoIndex (nextVideo c s).1 = Z.of_nat (length (videos s)) ∧
  currentVideo (nextVideo c s).1 = None.
Proof.
  unfold nextVideo. destruct (Z.ltb_spec (currentVideoIndex c)
                                (Z.of_nat (length (videos c)) - 1)); [|lia].
  simpl. repeat split; [lia|].
  unfold currentVideo. simpl. rewrite Hlast.
  destruct (Z.ltb_spec (Z.of_nat (length (videos s)) - 1 + 1) 0); [done|].
  apply lookup_ge_None. lia.
Qed.

Lemma delayed_nextVideo_overshoots_witness :
  timers sampleArmed !! 0%nat = Some sampleState ∧
  (nextVideo sampleState (app sampleArmed)).2 = [] ∧
  videos (nextVideo sampleState (app sampleArmed)).1 = videos (app sampleArmed) ∧
  currentVideoIndex (nextVideo sampleState (app sampleArmed)).1 = 2 ∧
  currentVideo (nextVideo sampleState (app sampleArmed)).1 = None.
Proof.
  split; [reflexivity|].
  apply (delayed_nextVideo_overshoots sampleState (app sampleArmed)); reflexivity.
Defined.

(** ** Settlements of interactions *)

(** X5: the settlements of two POSTs for different videos may come in
    either order with the same result; of two POSTs for the same video,
    the one that resolves last decides the entry, whichever was sent
    first. *)
Theorem interactionSettled_order
    (v1 l1 : Z) (w1 : float) (r1 : outcome unit)
    (v2 l2 : Z) (w2 : float) (r2 : outcome unit)
    (prev : gmap Z Interaction) :
  (v1 ≠ v2 →
   interactionSettled v1 l1 w1 r1 (interactionSettled v2 l2 w2 r2 prev)
   = interactionSettled v2 l2 w2 r2 (interactionSettled v1 l1 w1 r1 prev)) ∧
  (∀ a, interactionSettled v1 l1 w1 (Resolved a) (interactionSettled v1 l2 w2 r2 prev)
        = interactionSettled v1 l1 w1 (Resolved a) prev).
Proof.
  split.
  - intros Hne. destruct r1, r2; simpl; try done. by apply insert_insert_ne.
  - intros a. destruct r2; simpl; [|done]. apply insert_insert_eq.
Qed.

(** ** Like against dislike *)

Lemma pressed_handleLike s video :
  currentVideo s = Some video →
  pressed handleLike s
  = Some (setUserInteractions
            (interactionSettled (id video)
               (if bool_decide (recordedLiked (userInteractions s) (id video) = Some 1)
                then 0 else 1)
               (videoProgress s) (Resolved ())) s).
Proof. intros Hv. unfold pressed, handleLike. by rewrite Hv. Qed.

Lemma pressed_handleDislike s video :
  currentVideo s = Some video →
  pressed handleDislike s
  = Some (setUserInteractions
            (interactionSettled (id video)
               (if bool_decide (recordedLiked (userInteractions s) (id video) = Some (-1))
                then 0 else -1)
               (videoProgress s) (Resolved ())) s).
Proof. intros Hv. unfold pressed, handleDislike. by rewrite Hv. Qed.

Lemma recordedLiked_settled v l w a prev :
  recordedLiked (interactionSettled v l w (Resolved a) prev) v = Some l.
Proof. unfold recordedLiked, interactionSettled. by rewrite lookup_insert_eq. Qed.

(** X6: whatever is recorded for the current video, nothing included, a
    successful like records 1 unless 1 was recorded (then 0) and a
    successful dislike records -1 unless -1 was recorded (then 0); a
    successful dislike right after a successful like always leaves -1, and
    a successful like right after a successful dislike always leaves 1. *)
Theorem like_dislike_exclusive s video (p : float)
    (Hcurrent : currentVideo s = Some video) :
  (∃ s1 s2,
     pressed handleLike s = Some s1 ∧
     recordedLiked (userInteractions s1) (id video)
     = Some (if bool_decide (recordedLiked (userInteractions s) (id video) = Some 1)
             then 0 else 1) ∧
     pressed handleDislike (setVideoProgress p s1) = Some s2 ∧
     recordedLiked (userInteractions s2) (id video) = Some (-1)) ∧
  (∃ s1 s2,
     pressed handleDislike s = Some s1 ∧
     recordedLiked (userInteractions s1) (id video)
     = Some (if bool_decide (recordedLiked (userInteractions s) (id video) = Some (-1))
             then 0 else -1) ∧
     pressed handleLike (setVideoProgress p s1) = Some s2 ∧
     recordedLiked (userInteractions s2) (id video) = Some 1).
Proof.
  split; eexists _, _.
  - rewrite (pressed_handleLike s video Hcurrent).
    split; [done|]. split; [apply recordedLiked_settled|].
    rewrite (pressed_handleDislike _ video) by exact Hcurrent.
    split; [done|]. cbn [userInteractions setUserInteractions setVideoProgress].
    rewrite !recordedLiked_settled. by repeat case_bool_decide.
  - rewrite (pressed_handleDislike s video Hcurrent).
    split; [done|]. split; [apply recordedLiked_settled|].
    rewrite (pressed_handleLike _ video) by exact Hcurrent.
    split; [done|]. cbn [userInteractions setUserInteractions setVideoProgress].
    rewrite !recordedLiked_settled. by repeat case_bool_decide.
Qed.

Lemma like_dislike_exclusive_witness :
  (∃ s1 s2,
     pressed handleLike sampleState = Some s1 ∧
     recordedLiked (userInteractions s1) 10 = Some 1 ∧
     pressed handleDislike (setVideoProgress 42%float s1) = Some s2 ∧
     recordedLiked (userInteractions s2) 10 = Some (-1)) ∧
  (∃ s1 s2,
     pressed handleDislike sampleState = Some s1 ∧
     recordedLiked (userInteractions s1) 10 = Some (-1) ∧
     pressed handleLike (setVideoProgress 42%float s1) = Some s2 ∧
     recordedLiked (userInteractions s2) 10 = Some 1).
Proof.
  exact (like_dislike_exclusive sampleState _ 42%float eq_refl).
Defined.

(** ** What is shown after a press *)

Lemma currentInteraction_recorded s video :
  currentVideo s = Some video →
  liked <$> currentInteraction s = recordedLiked (userInteractions s) (id video).
Proof. intros Hv. unfold currentInteraction, recordedLiked. by rewrite Hv. Qed.

Lemma shown_after_settled s video l :
  currentVideo s = Some video →
  let s1 := setUserInteractions
              (interactionSettled (id video) l (videoProgress s) (Resolved ())) s in
  displayedLikes s1 = Some (likes video + (if bool_decide (l = 1) then 1 else 0)) ∧
  interactionLabel s1
  = Some (if bool_decide (l = 1) then "Liked"
          else if bool_decide (l = -1) then "Disliked" else "Neutral").
Proof.
  intros Hv s1.
  assert (Hv1 : currentVideo s1 = Some video) by exact Hv.
  assert (Hi : currentInteraction s1
               = Some {| liked := l; watchedPercent := videoProgress s |}).
  { unfold currentInteraction. rewrite Hv1. apply lookup_insert_eq. }
  unfold displayedLikes, interactionLabel, likedIs. rewrite Hv1, Hi. simpl.
  split; [|done]. do 2 f_equal. by repeat case_bool_decide; simplify_eq.
Qed.

(** X7: after a successful like on the current video the counter next to
    the heart shows the video's likes plus one and the label reads
    "Liked", unless the video was recorded as liked, in which case the
    counter shows the likes and the label reads "Neutral"; after a
    successful dislike the counter shows the likes, and the label reads
    "Disliked", or "Neutral" when the video was recorded as disliked. *)
Theorem shown_after_press s video (Hcurrent : currentVideo s = Some video) :
  (∃ s1, pressed handleLike s = Some s1 ∧
     displayedLikes s1 = Some (likes video + (if likedIs 1 s then 0 else 1)) ∧
     interactionLabel s1 = Some (if likedIs 1 s then "Neutral" else "Liked")) ∧
  (∃ s1, pressed handleDislike s = Some s1 ∧
     displayedLikes s1 = Some (likes video) ∧
     interactionLabel s1 = Some (if likedIs (-1) s then "Neutral" else "Disliked")).
Proof.
  unfold likedIs. rewrite (currentInteraction_recorded s video Hcurrent).
  split; eexists.
  - rewrite (pressed_handleLike s video Hcurrent). split; [done|].
    destruct (shown_after_settled s video
                (if bool_decide (recordedLiked (userInteractions s) (id video) = Some 1)
                 then 0 else 1) Hcurrent) as [-> ->].
    destruct (bool_decide (recordedLiked _ _ = _)); split; reflexivity.
  - rewrite (pressed_handleDislike s video Hcurrent). split; [done|].
    destruct (shown_after_settled s video
                (if bool_decide (recordedLiked (userInteractions s) (id video) = Some (-1))
                 then 0 else -1) Hcurrent) as [-> ->].
    destruct (bool_decide (recordedLiked _ _ = _)); cbn; rewrite Z.add_0_r;
      split; reflexivity.
Qed.

Lemma shown_after_press_witness :
  (∃ s1, pressed handleLike sampleState = Some s1 ∧
     displayedLikes s1 = Some 4 ∧ interactionLabel s1 = Some "Liked") ∧
  (∃ s1, pressed handleDislike sampleState = Some s1 ∧
     displayedLikes s1 = Some 3 ∧ interactionLabel s1 = Some "Disliked").
Proof.
  exact (shown_after_press sampleState _ eq_refl).
Defined.

(** X8: with a non-negative index, the Previous button is disabled exactly
    when [prevVideo] would leave the state as it is. *)
Theorem prevDisabled_iff_noop s (Hidx : 0 ≤ currentVideoIndex s) :
  prevDisabled s = true ↔ prevVideo s s = s.
Proof.
  unfold prevDisabled, prevVideo. rewrite bool_decide_eq_true.
  destruct (Z.ltb_spec 0 (currentVideoIndex s)) as [Hpos|Hnpos].
  - split; [lia|]. intros Heq%(f_equal currentVideoIndex). simpl in Heq. lia.
  - split; [done|lia].
Qed.

Lemma prevDisabled_iff_noop_witness :
  (prevDisabled sampleState = true ↔ prevVideo sampleState sampleState = sampleState) ∧
  (prevDisabled sampleAtLast = true ↔ prevVideo sampleAtLast sampleAtLast = sampleAtLast).
Proof.
  split.
  - apply (prevDisabled_iff_noop sampleState). vm_compute. discriminate.
  - apply (prevDisabled_iff_noop sampleAtLast). vm_compute. discriminate.
Defined.

(** ** The empty feed *)

(** X9: on an empty feed with the index at 0 (the state after a reset, a
    logout or before the first response) like and dislike send nothing,
    nothing is shown next to the heart, the counter reads "1 / 0",
    Previous and the prefetch effect do nothing, and Next sends one
    recommendation request for the selected algorithm and sets the
    loading flag. *)
Theorem empty_feed_behaviour s
    (Hempty : videos s = []) (Hidx : currentVideoIndex s = 0) :
  handleLike s = None ∧ handleDislike s = None ∧
  displayedLikes s = None ∧ videoCounter s = "1 / 0" ∧
  prevVideo s s = s ∧ prefetchEffect s = (s, []) ∧
  nextVideo s s
  = (setLoading true s, [GetRecommend (selectedAlgorithm s) (userId_of (user s))]).
Proof.
  assert (Hnone : currentVideo s = None).
  { unfold currentVideo. rewrite Hempty, Hidx. done. }
  unfold handleLike, handleDislike, displayedLikes, videoCounter, prevVideo,
    prefetchEffect, nextVideo.
  rewrite Hnone, Hempty, Hidx. done.
Qed.

Lemma empty_feed_behaviour_witness :
  handleLike initial = None ∧ handleDislike initial = None ∧
  displayedLikes initial = None ∧ videoCounter initial = "1 / 0" ∧
  prevVideo initial initial = initial ∧ prefetchEffect initial = (initial, []) ∧
  nextVideo initial initial
  = (setLoading true initial, [GetRecommend "hybrid" 1]).
Proof.
  exact (empty_feed_behaviour initial eq_refl eq_refl).
Defined.

(** ** Restarting the feed *)

(** X10: after a login, and after a change of algorithm while a user is
    logged in, the feed effect empties the feed, puts the index at 0,
    forgets every recorded interaction and sends one request, for the
    algorithm then selected and the id of that user; [refreshFeed] does the
    same except that the recorded interactions are kept; without a user
    the feed effect leaves the state alone and sends nothing. *)
Theorem feed_restart (u : User) (a : string) s :
  let restarted (r : AppState * list request) (alg : string) (who : option User) :=
    videos r.1 = [] ∧ currentVideoIndex r.1 = 0 ∧ loading r.1 = true ∧
    r.2 = [GetRecommend alg (userId_of who)] in
  (restarted (feedEffect (handleLogin u s)) (selectedAlgorithm s) (Some u) ∧
   userInteractions (feedEffect (handleLogin u s)).1 = ∅) ∧
  (is_Some (user s) →
   restarted (feedEffect (onChangeAlgorithm a s)) a (user s) ∧
   userInteractions (feedEffect (onChangeAlgorithm a s)).1 = ∅) ∧
  (restarted (refreshFeed s s) (selectedAlgorithm s) (user s) ∧
   userInteractions (refreshFeed s s).1 = userInteractions s) ∧
  (user s = None → feedEffect s = (s, [])).
Proof.
  simpl. split; [done|]. split; [|split; [done|]].
  - intros [u' Hu]. unfold feedEffect, onChangeAlgorithm. simpl. by rewrite Hu.
  - intros Hu. unfold feedEffect. by rewrite Hu.
Qed.

(** ** Invariants of the running component *)

Lemma run_invariant (P : Machine → Prop) :
  (∀ m out m', step m out m' → P m → P m') →
  ∀ m out m', run m out m' → P m → P m'.
Proof. intros Hstep m out m'. induction 1; eauto. Qed.

Lemma step_recordedInv m out m' : step m out m' → recordedInv m → recordedInv m'.
Proof.
  intros Hstep [Hrec Hpend].
  assert (Hempty : ∀ v i, (∅ : gmap Z Interaction) !! v = Some i → likedValue (liked i)).
  { intros v i. by rewrite lookup_empty. }
  destruct Hstep; split; simpl; try done.
  - unfold feedEffect. by destruct (user (app m)).
  - unfold prefetchEffect. by destruct (_ && _).
  - by destruct response.
  - apply handleLike_sends in H as (video & _ & _ & ->).
    constructor; [|done]. eexists _, _, _. split; [|done].
    unfold likedValue. case_bool_decide; auto.
  - apply handleDislike_sends in H as (video & _ & _ & ->).
    constructor; [|done]. eexists _, _, _. split; [|done].
    unfold likedValue. case_bool_decide; auto.
  - pose proof (proj1 (Forall_forall _ _) Hpend k (list_elem_of_lookup_2 _ _ _ H))
      as (v & l & w & Hl & ->).
    destruct result; simpl; [|done].
    intros v' i'. destruct (decide (v = v')) as [->|Hne].
    + rewrite lookup_insert_eq. by intros [= <-].
    + rewrite lookup_insert_ne by done. apply Hrec.
  - by apply Forall_delete.
  - unfold nextVideo. by destruct (_ <? _).
  - unfold nextVideo. by destruct (_ <? _).
  - unfold prevVideo. by destruct (_ <? _).
Qed.

(** X11: in every state the component can reach, each recorded
    interaction holds a [liked] of -1, 0 or 1. *)
Theorem recorded_liked_in_range out m (Hrun : run boot out m) :
  ∀ v i, userInteractions (app m) !! v = Some i →
    liked i = -1 ∨ liked i = 0 ∨ liked i = 1.
Proof.
  refine (proj1 (run_invariant recordedInv step_recordedInv _ _ _ Hrun _)).
  split; [|constructor]. intros v i. cbn. by rewrite lookup_empty.
Qed.

Lemma step_loadingInv m out m' : step m out m' → loadingInv m → loadingInv m'.
Proof.
  unfold loadingInv. intros Hstep Hinv.
  assert (Hstarted : ∀ a u, (0 < pendingFetches m + countRecommend [GetRecommend a u])%nat).
  { intros a u. unfold countRecommend. simpl. lia. }
  destruct Hstep; simpl; rewrite ?Nat.add_0_r; try exact Hinv.
  - unfold feedEffect. destruct (user (app m)); simpl; [intros _; apply Hstarted|].
    by rewrite Nat.add_0_r.
  - unfold prefetchEffect. destruct (_ && _); simpl; [intros _; apply Hstarted|].
    by rewrite Nat.add_0_r.
  - by destruct response.
  - unfold nextVideo. destruct (_ <? _); simpl; [|intros _; apply Hstarted].
    by rewrite Nat.add_0_r.
  - unfold nextVideo. destruct (_ <? _); simpl; [|intros _; apply Hstarted].
    by rewrite Nat.add_0_r.
  - unfold prevVideo. by destruct (_ <? _).
  - intros _. apply Hstarted.
Qed.

(** X12: in every state the component can reach, the loading flag is set
    only while a recommendation request has not settled, so the
    [finally] block of that request is still to clear it. *)
Theorem loading_has_pending_fetch out m (Hrun : run boot out m) :
  loading (app m) = true → (0 < pendingFetches m)%nat.
Proof.
  by refine (run_invariant loadingInv step_loadingInv _ _ _ Hrun _).
Qed.

Lemma step_indexInv m out m' : step m out m' → indexInv m → indexInv m'.
Proof.
  unfold indexInv. intros Hstep Hinv. destruct Hstep; simpl; try done.
  - unfold feedEffect. by destruct (user (app m)).
  - unfold prefetchEffect. by destruct (_ && _).
  - by destruct response.
  - unfold nextVideo. destruct (_ <? _); simpl; lia.
  - unfold nextVideo. destruct (_ <? _); simpl; lia.
  - unfold prevVideo. destruct (Z.ltb_spec 0 (currentVideoIndex (app m))); simpl; lia.
Qed.

(** X13: in every state the component can reach the index is not
    negative: Previous moves back only from a positive index, and nothing
    else decreases it except a reset to 0. *)
Theorem index_never_negative out m (Hrun : run boot out m) :
  0 ≤ currentVideoIndex (app m).
Proof.
  by refine (run_invariant indexInv step_indexInv _ _ _ Hrun _).
Qed.

Lemma videoObject_derivedFromId response rec statsResponse :
  derivedFromId (videoObject response rec statsResponse).
Proof. by destruct statsResponse. Qed.

Lemma step_feedInv m out m' : step m out m' → feedInv m → feedInv m'.
Proof.
  unfold feedInv. intros Hstep Hinv.
  destruct Hstep; simpl; try done; try by constructor.
  - unfold feedEffect. destruct (user (app m)); [constructor|done].
  - unfold prefetchEffect. by destruct (_ && _).
  - destruct response as [r|]; simpl; [|done].
    apply Forall_app. split; [done|]. unfold videoObjects.
    apply Forall_forall. intros video [i Hi]%list_elem_of_lookup.
    apply list_lookup_imap_Some in Hi as (rec & _ & ->).
    apply videoObject_derivedFromId.
  - unfold nextVideo. by destruct (_ <? _).
  - unfold nextVideo. by destruct (_ <? _).
  - unfold prevVideo. by destruct (_ <? _).
Qed.

(** X14: in every state the component can reach, each item of the feed
    has the title "Story <id>", the URL "/videos/<id>.mp4" and the author
    "StoryBot", <id> being its own id in decimal. *)
Theorem feed_items_derived_from_id out m (Hrun : run boot out m) :
  ∀ video, video ∈ videos (app m) →
    title video = "Story " +:+ pretty (id video) ∧
    videoUrl video = "/videos/" +:+ pretty (id video) +:+ ".mp4" ∧
    author video = "StoryBot".
Proof.
  apply Forall_forall.
  refine (run_invariant feedInv step_feedInv _ _ _ Hrun _). constructor.
Qed.

(** ** Runs of the sample session *)

Lemma sampleLoading_reachable : ∃ out, run boot out sampleLoading.
Proof.
  eexists. unfold sampleLoading.
  eapply run_step; [eapply run_step; [apply run_nil|] |].
  - apply (step_login _ sampleUser).
  - apply step_feedEffect.
Qed.

Lemma sampleLiked_reachable : ∃ out, run boot out sampleLiked.
Proof.
  cut (∃ out m, run boot out m ∧ m = sampleLiked).
  { intros (out & m & Hrun & <-). by exists out. }
  eexists _, _. split.
  - eapply run_step; [eapply run_step; [eapply run_step; [eapply run_step;
      [eapply run_step; [apply run_nil|] |] |] |] |].
    + apply (step_login _ sampleUser).
    + apply step_feedEffect.
    + by apply (step_fetched _ 0 (Resolved sampleResponse) sampleStats).
    + eapply step_like. reflexivity.
    + by eapply (step_posted _ 0%nat _ (Resolved ())).
  - reflexivity.
Qed.

Lemma recorded_liked_in_range_witness :
  ∃ i, userInteractions (app sampleLiked) !! 10 = Some i ∧
       (liked i = -1 ∨ liked i = 0 ∨ liked i = 1).
Proof.
  destruct sampleLiked_reachable as [out Hrun].
  eexists. split; [reflexivity|].
  apply (recorded_liked_in_range out sampleLiked Hrun 10). reflexivity.
Defined.

Lemma loading_has_pending_fetch_witness :
  loading (app sampleLoading) = true ∧ (0 < pendingFetches sampleLoading)%nat.
Proof.
  destruct sampleLoading_reachable as [out Hrun].
  split; [reflexivity|].
  apply (loading_has_pending_fetch out sampleLoading Hrun). reflexivity.
Defined.

Lemma index_never_negative_witness :
  0 ≤ currentVideoIndex (app sampleArmed).
Proof.
  destruct sampleArmed_reachable as [out Hrun].
  exact (index_never_negative out sampleArmed Hrun).
Defined.

Lemma feed_items_derived_from_id_witness :
  ∃ video, videos (app sampleArmed) !! 1%nat = Some video ∧
    title video = "Story 11" ∧ videoUrl video = "/videos/11.mp4" ∧
    author video = "StoryBot".
Proof.
  destruct sampleArmed_reachable as [out Hrun].
  eexists. split; [reflexivity|].
  apply (feed_items_derived_from_id out sampleArmed Hrun).
  apply (list_elem_of_lookup_2 _ 1%nat). reflexivity.
Defined.

(** ** The user id of a request *)





(** ** Paths and URLs *)

Lemma string_length_app (s t : string) :
  String.length (s +:+ t) = (String.length s + String.length t)%nat.
Proof. induction s as [|a s IH]; simpl; [done|]. by rewrite IH. Qed.

Lemma string_app_inv_tail (s1 s2 t : string) : s1 +:+ t = s2 +:+ t → s1 = s2.
Proof.
  revert s2. induction s1 as [|a s1 IH]; intros [|b s2] Heq.
  - done.
  - apply (f_equal String.length) in Heq.
    rewrite !string_length_app in Heq. simpl in Heq. lia.
  - apply (f_equal String.length) in Heq.
    rewrite !string_length_app in Heq. simpl in Heq. lia.
  - injection Heq as -> Heq. f_equal. by apply IH.
Qed.

Lemma derivedFromId_inj video1 video2 :
  derivedFromId video1 → derivedFromId video2 →
  title video1 = title video2 ∨ videoUrl video1 = videoUrl video2 →
  id video1 = id video2.
Proof.
  intros (Ht1 & Hu1 & _) (Ht2 & Hu2 & _) [Heq|Heq].
  - rewrite Ht1, Ht2 in Heq. by apply (inj _), (inj pretty) in Heq.
  - rewrite Hu1, Hu2 in Heq. apply (inj _), string_app_inv_tail in Heq.
    by apply (inj pretty) in Heq.
Qed.

(** X16: in every feed the component can reach, two items with different
    ids have different titles and different video URLs, and the stats
    requests of different videos go to different paths. *)
Theorem feed_urls_distinct out m video1 video2
    (Hrun : run boot out m)
    (H1 : video1 ∈ videos (app m)) (H2 : video2 ∈ videos (app m))
    (Hne : id video1 ≠ id video2) :
  title video1 ≠ title video2 ∧ videoUrl video1 ≠ videoUrl video2 ∧
  path (GetStats (id video1)) ≠ path (GetStats (id video2)).
Proof.
  assert (Hd : ∀ video, video ∈ videos (app m) → derivedFromId video).
  { apply Forall_forall.
    refine (run_invariant feedInv step_feedInv _ _ _ Hrun _). constructor. }
  split; [|split]; intros Heq; apply Hne.
  - apply derivedFromId_inj; auto.
  - apply derivedFromId_inj; auto.
  - simpl in Heq. apply (inj _), string_app_inv_tail in Heq.
    by apply (inj pretty) in Heq.
Qed.

Lemma feed_urls_distinct_witness :
  ∃ video1 video2,
    videos (app sampleArmed) !! 0%nat = Some video1 ∧
    videos (app sampleArmed) !! 1%nat = Some video2 ∧
    title video1 ≠ title video2 ∧ videoUrl video1 ≠ videoUrl video2 ∧
    path (GetStats (id video1)) ≠ path (GetStats (id video2)).
Proof.
  destruct sampleArmed_reachable as [out Hrun].
  eexists _, _. split; [reflexivity|]. split; [reflexivity|].
  apply (feed_urls_distinct out sampleArmed _ _ Hrun).
  - apply (list_elem_of_lookup_2 _ 0%nat). reflexivity.
  - apply (list_elem_of_lookup_2 _ 1%nat). reflexivity.
  - vm_compute. discriminate.
Defined.

End FeedProofs.

(** * Properties of the sign-in form *)

Section AuthProofs.
Import Js Auth.

Implicit Types (s : AuthState).

(** X17: submitting sets the loading flag and clears the error; in
    sign-in mode the POST goes to /auth/login and its object has the keys
    username and password only, with the values of the form, whatever else
    the form holds (an email typed in sign-up mode is not sent); in sign-up
    mode it goes to /auth/register with every field of the form. *)
Theorem handleSubmit_request s :
  loading (handleSubmit s).1 = true ∧ error (handleSubmit s).1 = "" ∧
  formData (handleSubmit s).1 = formData s ∧
  isLogin (handleSubmit s).1 = isLogin s ∧
  (isLogin s = true →
     (handleSubmit s).2
     = Post "http://localhost:8000/auth/login"
            {[ "username" := formData s !! "username";
               "password" := formData s !! "password" ]} ∧
     dom (submitData s) = ({[ "username"; "password" ]} : gset string) ∧
     submitData s !! "email" = None) ∧
  (isLogin s = false →
     (handleSubmit s).2 = Post "http://localhost:8000/auth/register" (Some <$> formData s) ∧
     ∀ key, submitData s !! key = Some <$> formData s !! key).
Proof.
  unfold handleSubmit, submitData. simpl. do 4 (split; [done|]).
  split; intros Hmode; rewrite Hmode.
  - split; [done|]. split; [|done].
    by rewrite dom_insert_L, dom_singleton_L.
  - split; [done|]. intros key. apply lookup_fmap.
Qed.

(** X18: when the POST of the form settles the loading flag is cleared
    and the form data and the mode are kept; [onLogin] is called exactly
    when the response reports success, after the user and a token have
    been stored, and the stored token is never empty (a missing or empty
    token is replaced by "user_<id>"); a response without success shows
    its message, a rejected request shows its detail or, without one, "An
    error occurred", which is never empty, and neither stores anything. *)
Theorem handleSubmit_settled_outcomes (r : settlement) s :
  let s' := (handleSubmit_settled r s).1 in
  let effects := (handleSubmit_settled r s).2 in
  loading s' = false ∧ formData s' = formData s ∧ isLogin s' = isLogin s ∧
  (∀ user, OnLogin user ∈ effects ↔ ∃ token, r = Responded (Success user token)) ∧
  (∀ user token, r = Responded (Success user token) →
     effects = [StoreUser user; StoreToken (tokenOf user token); OnLogin user] ∧
     tokenOf user token ≠ "" ∧ error s' = error s) ∧
  (∀ message, r = Responded (Failure message) → effects = [] ∧ error s' = message) ∧
  (∀ detail, r = Failed detail →
     effects = [] ∧ error s' ≠ "" ∧
     (∀ d, detail = Some d → d ≠ "" → error s' = d)).
Proof.
  simpl. split; [by destruct r as [[]|]|]. split; [by destruct r as [[]|]|].
  split; [by destruct r as [[]|]|]. split; [|split; [|split]].
  - intros user. split.
    + destruct r as [[user' token|]|]; simpl; intros Hin;
        [|by apply elem_of_nil in Hin..].
      rewrite !elem_of_cons, elem_of_nil in Hin.
      destruct Hin as [?|[?|[[= ->]|[]]]]; try discriminate. eauto.
    + intros [token ->]. simpl. do 2 right. by left.
  - intros user token ->. simpl. split; [done|]. split; [|done].
    unfold tokenOf. destruct token as [t|]; [case_decide|]; done.
  - by intros message ->.
  - intros detail ->. simpl. split; [done|]. split.
    + unfold detailOf. destruct detail as [d|]; [case_decide|]; done.
    + intros d -> Hd. unfold detailOf. by case_decide.
Qed.

(** X19: the demo button fills the form with the demo account and
    switches to sign-in whatever the form held and whether or not the
    registration it posts first succeeded; the submission that follows is a
    POST to /auth/login with exactly the demo user name and password, and
    the form no longer has an email field. *)
Theorem demoLogin_submits_demo_account (registered : outcome unit) s :
  let filled := demoLogin_settled registered s in
  (handleSubmit filled).2
  = Post "http://localhost:8000/auth/login"
         {[ "username" := Some "demo_user"; "password" := Some "demo123" ]} ∧
  formData filled !! "email" = None ∧
  loading filled = loading s ∧ error filled = error s.
Proof. done. Qed.

(** X20: what is typed into a field is what the form holds for it, the
    other fields, the mode, the loading flag and the error being
    untouched, and typing again replaces it; in sign-in mode, after a user
    name and a password have been typed, in either order, the object
    submitted is exactly that pair, and typing into any other field does
    not change what is submitted; switching the mode twice gives the form
    back. *)
Theorem typed_values_are_submitted (name value value' u p : string) s :
  formData (handleChange name value s) !! name = Some value ∧
  (∀ other, other ≠ name →
     formData (handleChange name value s) !! other = formData s !! other) ∧
  handleChange name value' (handleChange name value s) = handleChange name value' s ∧
  isLogin (handleChange name value s) = isLogin s ∧
  loading (handleChange name value s) = loading s ∧
  error (handleChange name value s) = error s ∧
  (isLogin s = true →
     submitData (handleChange "password" p (handleChange "username" u s))
     = {[ "username" := Some u; "password" := Some p ]} ∧
     submitData (handleChange "username" u (handleChange "password" p s))
     = {[ "username" := Some u; "password" := Some p ]} ∧
     (name ≠ "username" → name ≠ "password" →
      submitData (handleChange name value s) = submitData s)) ∧
  toggleMode (toggleMode s) = s ∧ formData (toggleMode s) = formData s.
Proof.
  unfold handleChange, toggleMode, submitData. simpl.
  split; [apply lookup_insert_eq|]. split.
  { intros other Hne. by apply lookup_insert_ne. }
  split; [unfold setFormData; simpl; by rewrite insert_insert_eq|].
  do 3 (split; [done|]). split.
  - intros ->. split; [by simplify_map_eq|]. split; [by simplify_map_eq|].
    intros Hu Hp. by rewrite !lookup_insert_ne.
  - split; [|done]. destruct s as [[] ? ? ? ?]; reflexivity.
Qed.

Example handleSubmit_sample :
  (handleSubmit sampleForm).2
  = Post "http://localhost:8000/auth/login"
         {[ "username" := Some "ann"; "password" := Some "secret" ]} ∧
  (handleSubmit (toggleMode sampleForm)).2
  = Post "http://localhost:8000/auth/register"
         {[ "username" := Some "ann"; "email" := Some ""; "password" := Some "secret" ]} ∧
  (handleSubmit_settled (Responded (Success App.sampleUser None)) sampleForm).2
  = [StoreUser App.sampleUser; StoreToken "user_7"; OnLogin App.sampleUser].
Proof. repeat split; reflexivity. Qed.

End AuthProofs.

(** * Two presses as events of the component *)

Section PressProofs.
Import Js App AppInv.
Local Open Scope Z_scope.

Implicit Types (m : Machine) (e : event).




(** A press whose POST resolves before anything else happens is [pressed]
    on the rendered state. *)
Lemma play_pressed m :
  app <$> play [PressLike; Settle 0 (Resolved ())] m = pressed handleLike (app m) ∧
  app <$> play [PressDislike; Settle 0 (Resolved ())] m = pressed handleDislike (app m).
Proof.
  unfold pressed. simpl. split.
  - by destruct (handleLike (app m)) as [[req k]|].
  - by destruct (handleDislike (app m)) as [[req k]|].
Qed.


End PressProofs.
